(** * Cancellable streaming analysis: cancellation registry, SSE generator,
      check cadence and log chunking

    A shallow embedding of the Python listings of the repository's design
    documents and of parts of its browser code:

    - [docs/deployment.md], "取消機制流程設計文檔": the classes
      [CancellationToken] and [CancellationManager], the helper
      [handle_cancellation], the cancel endpoint, the analyzer's loop
      [analyze_anr_async], the SSE endpoint [analyze_with_cancellation]
      with its generator [generate],
      [StreamingAnalyzer.stream_with_cancellation] and the React component
      [AnalysisComponent];
    - [docs/troubleshooting.md]: [split_log], [request_with_retry] and
      [read_in_chunks];
    - [web/assets/manifest.josn], [unnamed/part_002] and [web/js/utils.js]:
      [ApiClient.getHeaders], [ApiClient.handleError],
      [generateAnalysisId], [FileHandler.validateFile] and
      [Utils.escapeHtml].

    Python objects with identity (tokens) live in an object store and are
    named by references; dictionaries are finite maps; a call that can raise
    returns a [result]; a generator is the list of values it yields together
    with the way it ends. Clock readings ([time.time()]) are passed in by
    the caller of each operation, and so is what a method does that the
    listings call and do not define. The module [Coordinator] alone follows
    the specification instead of code: the engine it stands for is not
    among the sources. *)

From Stdlib Require Import ZArith Lia Ascii String.
From stdpp Require Import base option list gmap strings.

Local Open Scope string_scope.
Local Open Scope list_scope.
Local Open Scope Z_scope.

(** ** Python exceptions and fallible calls *)

(** The exception classes the listings raise or catch, and those the
    library calls they make raise. [CancelledError] is
    [asyncio.CancelledError], which derives from [BaseException] and not from
    [Exception] (Python 3.8 and later; [start.sh] runs python3.12). *)
Inductive Exn :=
| StopAsyncIteration
| CancellationException
| CancelledError
| CancellationNotFoundError (msg : string)
| ValueError (msg : string)
| RuntimeError (msg : string)
| OverflowError (msg : string)
| AttributeError (msg : string).

(** [isinstance(e, Exception)]. *)
Definition is_Exception (e : Exn) : bool :=
  match e with
  | CancelledError => false
  | _ => true
  end.

(** [str(e)]. *)
Definition str (e : Exn) : string :=
  match e with
  | StopAsyncIteration | CancellationException | CancelledError => ""
  | CancellationNotFoundError msg | ValueError msg | RuntimeError msg
  | OverflowError msg | AttributeError msg => msg
  end.

Inductive result (A : Type) :=
| Return (a : A)
| Raise (e : Exn).
Arguments Return {A} a.
Arguments Raise {A} e.

#[global] Instance result_ret : MRet result := fun A a => Return a.
#[global] Instance result_bind : MBind result := fun A B k r =>
  match r with
  | Return a => k a
  | Raise e => Raise e
  end.

(** ** Cancellation tokens and their registry *)

Module Cancellation.

(** A reading of [time.time()]. *)
Abbreviation timestamp := Z.

(** [class CancellationToken]: the attributes its methods read or write.
    [_callbacks] and [_lock] are set by [__init__] and used by no method of
    the listing. *)
Record CancellationToken := {
  analysis_id : string;
  is_cancelled : bool;
  created_at : timestamp;
  cancelled_at : option timestamp
}.

(** [CancellationToken.__init__], at clock reading [now]. *)
Definition new_token (id : string) (now : timestamp) : CancellationToken :=
  {| analysis_id := id; is_cancelled := false;
     created_at := now; cancelled_at := None |}.

(** [CancellationToken.check_cancelled_async]. *)
Definition check_cancelled_async (tok : CancellationToken) : result unit :=
  if is_cancelled tok then Raise CancelledError else Return tt.

(** A reference to a token object. *)
Abbreviation ref := nat.

(** The object store (every token ever constructed, by reference) and the
    manager's dictionary [_tokens], which holds references: the token a
    caller got from [create_token] and the one in the dictionary are the
    same object. *)
Record State := {
  store : list CancellationToken;
  _tokens : gmap string ref
}.

(** [CancellationManager.__init__]. *)
Definition init : State := {| store := []; _tokens := ∅ |}.

(** [CancellationManager.create_token]: a fresh token object is constructed
    and stored under the id, whatever was there before. The body runs under
    [self._lock], so it is one step. *)
Definition create_token (id : string) (now : timestamp) (st : State) : ref * State :=
  let r := length (store st) in
  (r, {| store := store st ++ [new_token id now];
         _tokens := <[id := r]> (_tokens st) |}).

(** The token object registered under an id, [self._tokens.get(id)]. *)
Definition get (id : string) (st : State) : option CancellationToken :=
  r ← _tokens st !! id; store st !! r.

(** What [self._trigger_callbacks()] does, given the token it is called on:
    it returns or it raises. [cancel] calls the method and no listing
    defines it. *)
Abbreviation Callbacks := (CancellationToken -> result unit).

(** The class exactly as it is listed: the attribute lookup fails. *)
Definition as_listed : Callbacks := fun _ =>
  Raise (AttributeError
    "'CancellationToken' object has no attribute '_trigger_callbacks'").

(** A method that finds nothing to run: [_callbacks] starts empty and
    nothing in the listings adds to it. *)
Definition no_callbacks : Callbacks := fun _ => Return tt.

(** The answers of the cancel endpoint. *)
Inductive CancelResponse :=
| Cancelled200 (analysis_id : string) (timestamp : timestamp)
| NotFound404 (error : string)
| Failed500 (error : string).

(** The calls a client of the manager can make: the two methods of
    [CancellationManager], and [cancel] on a token it holds. *)
Inductive Op :=
| OpCreate (id : string) (now : timestamp)
| OpCancelAnalysis (id : string) (now : timestamp)
| OpTokenCancel (r : ref) (now : timestamp).

Section Callbacks.

Context (_trigger_callbacks : Callbacks).

(** [CancellationToken.cancel], at clock reading [now]: what the call does
    and the token afterwards. The two attributes are assigned before the
    callbacks are triggered, so they stay assigned when that call raises. *)
Definition cancel (now : timestamp) (self : CancellationToken)
  : result unit * CancellationToken :=
  if negb (is_cancelled self) then
    let self' := {| analysis_id := analysis_id self; is_cancelled := true;
                    created_at := created_at self; cancelled_at := Some now |} in
    (_trigger_callbacks self', self')
  else (Return tt, self).

(** [token.cancel()] through a reference. *)
Definition cancel_ref (r : ref) (now : timestamp) (st : State) : result unit * State :=
  (from_option (fun tok => fst (cancel now tok)) (Return tt) (store st !! r),
   {| store := alter (fun tok => snd (cancel now tok)) r (store st);
      _tokens := _tokens st |}).

(** [CancellationManager.cancel_analysis], one step under [self._lock]:
    [return True] is reached when [token.cancel()] returns. *)
Definition cancel_analysis (id : string) (now : timestamp) (st : State)
  : result bool * State :=
  match _tokens st !! id with
  | Some r =>
      match store st !! r with
      | Some tok =>
          if negb (is_cancelled tok) then
            (_ ← fst (cancel_ref r now st); Return true, snd (cancel_ref r now st))
          else (Return false, st)
      | None => (Return false, st)
      end
  | None => (Return false, st)
  end.

(** [handle_cancellation]. A [CancellationNotFoundError], the one it raises
    itself included, is caught by its first handler, which returns [False];
    its second handler logs and re-raises, and what is no [Exception] passes
    both; on success the function falls off its end and returns [None]. *)
Definition handle_cancellation (id : string) (now : timestamp) (st : State)
  : result (option bool) * State :=
  let '(called, st') := cancel_analysis id now st in
  let body : result (option bool) :=
    success ← called;
    if negb success
    then Raise (CancellationNotFoundError ("Analysis " ++ id ++ " not found")%string)
    else Return None in
  match body with
  | Raise (CancellationNotFoundError _) => (Return (Some false), st')
  | Raise e => (Raise e, st')
  | Return v => (Return v, st')
  end.

(** The route [/api/ai/cancel/<analysis_id>]; [utcnow] is the reading of
    [datetime.utcnow()]. Its handler answers 500 for an [Exception]; what is
    none leaves the view. *)
Definition cancel_endpoint (id : string) (now utcnow : timestamp) (st : State)
  : result CancelResponse * State :=
  let '(called, st') := cancel_analysis id now st in
  match called with
  | Return success =>
      if success then (Return (Cancelled200 id utcnow), st')
      else (Return (NotFound404 "Analysis not found or already completed"), st')
  | Raise e =>
      if is_Exception e then (Return (Failed500 (str e)), st')
      else (Raise e, st')
  end.

(** A client's call changes the tokens whether it returns or raises. *)
Definition step (op : Op) (st : State) : State :=
  match op with
  | OpCreate id now => snd (create_token id now st)
  | OpCancelAnalysis id now => snd (cancel_analysis id now st)
  | OpTokenCancel r now => snd (cancel_ref r now st)
  end.

Definition run (ops : list Op) (st : State) : State :=
  foldl (fun s op => step op s) st ops.

End Callbacks.

End Cancellation.

(** ** The analyzer's streaming loop *)

Module Analyzer.

Import Cancellation.

(** An event of the provider's stream, by its [type]. *)
Inductive ProviderEvent :=
| content_block_delta (text : string)
| other_event (type : string).

(** How a run of [analyze_anr_async] ends: the texts it yielded, the
    tokens afterwards, whether [_cleanup] ran, and whether the generator
    finished or raised. *)
Record Outcome := {
  yielded : list string;
  final : State;
  cleaned_up : bool;
  ending : result unit
}.

(** [AnthropicApiStreamingANRAnalyzer.analyze_anr_async].
    [_cancellation_token] is the token the analyzer was given, if any.
    Each step of the provider's stream delivers an event or raises; while
    the analyzer waits for it, other tasks call the manager: [stream] lists,
    for each step, those calls and then what the step does. A step that
    raises [StopAsyncIteration] is the end of the stream: [async for]
    leaves the loop and the generator comes to its end. The first handler
    runs [_cleanup] and re-raises, the second logs and re-raises. *)
Fixpoint analyze_anr_async (_trigger_callbacks : Callbacks)
    (_cancellation_token : option ref)
    (stream : list (list Op * result ProviderEvent)) (st : State) : Outcome :=
  match stream with
  | [] => {| yielded := []; final := st; cleaned_up := false; ending := Return tt |}
  | (calls, next) :: rest =>
      let st := run _trigger_callbacks calls st in
      let raised e :=
        {| yielded := []; final := st;
           cleaned_up := match e with CancelledError => true | _ => false end;
           ending := Raise e |} in
      match next with
      | Raise StopAsyncIteration =>
          {| yielded := []; final := st; cleaned_up := false; ending := Return tt |}
      | Raise e => raised e
      | Return event =>
          let check :=
            match _cancellation_token with
            | Some r =>
                match store st !! r with
                | Some tok => check_cancelled_async tok
                | None => Return tt
                end
            | None => Return tt
            end in
          match check with
          | Raise e => raised e
          | Return _ =>
              let more :=
                analyze_anr_async _trigger_callbacks _cancellation_token rest st in
              match event with
              | content_block_delta text =>
                  {| yielded := text :: yielded more; final := final more;
                     cleaned_up := cleaned_up more; ending := ending more |}
              | other_event _ => more
              end
          end
      end
  end.

(** The texts of the [content_block_delta] events among the steps that
    deliver an event. *)
Definition delta_texts (stream : list (list Op * result ProviderEvent)) : list string :=
  omap (fun step => match snd step with
                    | Return (content_block_delta text) => Some text
                    | _ => None
                    end) stream.

(** The manager calls of a stretch of the stream, in order. *)
Definition calls_of (stream : list (list Op * result ProviderEvent)) : list Op :=
  concat (map fst stream).

End Analyzer.

(** ** Check cadence inside an open stream *)

Module Streaming.

(** A [str] is held as the bytes of its UTF-8 encoding. Every character
    (code point) has one leading byte, followed by continuation bytes, which
    are those from 128 to 191. *)
Definition continuation (b : ascii) : bool :=
  let n := nat_of_ascii b in ((128 <=? n) && (n <=? 191))%nat.

(** The number of characters of a [str]. *)
Fixpoint characters (s : string) : nat :=
  match s with
  | EmptyString => O
  | String b s' => if continuation b then characters s' else S (characters s')
  end.

(** [len(chunk)] of a [str]: its characters, not its bytes. *)
Definition len (s : string) : Z := Z.of_nat (characters s).

(** [class StreamingAnalyzer]: the two attributes set by [__init__]. *)
Record StreamingAnalyzer := {
  check_interval : Z;
  chars_since_check : Z
}.

(** [StreamingAnalyzer.__init__]. *)
Definition init : StreamingAnalyzer :=
  {| check_interval := 100; chars_since_check := 0 |}.

(** What happened to one fragment of [self.ai_stream()]: whether
    [self.check_cancelled()] was awaited for it and whether it was yielded. *)
Record Turn := {
  fragment : string;
  checked : bool;
  yielded : bool
}.

(** [StreamingAnalyzer.stream_with_cancellation]. [ai_stream] lists the
    fragments the provider delivers, each with what [self.check_cancelled()]
    would do if awaited at that moment (it is not defined in the listing; the
    token's check raises once a cancel request has arrived). The result is
    the log of the fragments handled, the analyzer afterwards, and how the
    generator ended. *)
Fixpoint stream_with_cancellation (self : StreamingAnalyzer)
    (ai_stream : list (string * result unit))
  : list Turn * StreamingAnalyzer * result unit :=
  match ai_stream with
  | [] => ([], self, Return tt)
  | (chunk, check_cancelled) :: rest =>
      let self1 := {| check_interval := check_interval self;
                      chars_since_check := chars_since_check self + len chunk |} in
      if check_interval self1 <=? chars_since_check self1 then
        match check_cancelled with
        | Raise e =>
            ([{| fragment := chunk; checked := true; yielded := false |}],
             self1, Raise e)
        | Return _ =>
            let self2 := {| check_interval := check_interval self1;
                            chars_since_check := 0 |} in
            let '(log, self', r) := stream_with_cancellation self2 rest in
            ({| fragment := chunk; checked := true; yielded := true |} :: log,
             self', r)
        end
      else
        let '(log, self', r) := stream_with_cancellation self1 rest in
        ({| fragment := chunk; checked := false; yielded := true |} :: log,
         self', r)
  end.

(** Total length of the fragments of a stretch of the log. *)
Definition chars (log : list Turn) : Z :=
  foldr (fun t acc => len (fragment t) + acc) 0 log.

(** The value of [chars_since_check] after the turns of [log], from [c0]. *)
Definition counter_after (c0 : Z) (log : list Turn) : Z :=
  foldl (fun c t => if checked t then 0 else c + len (fragment t)) c0 log.

Definition unchecked (t : Turn) : Prop := checked t = false.

End Streaming.

(** ** Manual chunking of a log *)

Module Chunker.

Section Sequences.
Context {A : Type}.

(** [len(s)]. *)
Definition len (s : list A) : Z := Z.of_nat (length s).

(** How Python places a slice bound [k] in a sequence of length [n]. *)
Definition clamp (n k : Z) : Z :=
  if k <? 0 then Z.max 0 (k + n) else Z.min k n.

(** [s[i:j]]. *)
Definition slice (s : list A) (i j : Z) : list A :=
  let lo := clamp (len s) i in
  let hi := clamp (len s) j in
  take (Z.to_nat (hi - lo)) (drop (Z.to_nat lo) s).

End Sequences.

(** [list(range(start, stop, step))]. *)
Definition range (start stop step : Z) : result (list Z) :=
  if step =? 0 then Raise (ValueError "range() arg 3 must not be zero")
  else
    let n := if 0 <? step then (stop - start + step - 1) / step
             else (start - stop - step - 1) / (- step) in
    Return (map (fun k => start + k * step) (seqZ 0 (Z.max 0 n))).

(** The default of [split_log]'s [chunk_size]. *)
Definition default_chunk_size : Z := 100000.

(** [split_log]: the comprehension over [range(0, len(content), chunk_size)].
    [content] is any sequence; a [str] is the list of its characters. *)
Definition split_log {A} (content : list A) (chunk_size : Z) : result (list (list A)) :=
  idx ← range 0 (len content) chunk_size;
  Return (map (fun i => slice content i (i + chunk_size)) idx).

(** Rounded-up quotient. *)
Definition ceil_div (a b : Z) : Z := (a + b - 1) / b.

End Chunker.

(** ** The engine's interface *)

Module Engine.

(** [class AnalysisMode(Enum)], [src/config/base.py], as the developer guide
    lists it before its tutorial adds a mode of its own. *)
Inductive AnalysisMode := QUICK | INTELLIGENT | LARGE_FILE | MAX_TOKEN.

(** [AnalysisMode(mode)]: lookup by value. *)
Definition AnalysisMode_of (mode : string) : result AnalysisMode :=
  if String.eqb mode "quick" then Return QUICK
  else if String.eqb mode "intelligent" then Return INTELLIGENT
  else if String.eqb mode "large_file" then Return LARGE_FILE
  else if String.eqb mode "max_token" then Return MAX_TOKEN
  else Raise (ValueError ("'" ++ mode ++ "' is not a valid AnalysisMode")%string).

(** The ['api_usage'] entry of the engine's status: a dictionary read with
    [.get(key, 0)]. *)
Record ApiUsage := {
  input_tokens : option Z;
  output_tokens : option Z
}.

(** The analysis engine, [src.core.engine.CancellableAiAnalysisEngine], as
    the generator sees it. [analyze_with_cancellation] gives what the
    successive [__anext__] calls on its asynchronous generator do: return a
    chunk or raise; past the end of the list they raise
    [StopAsyncIteration]. [get_status k] is the call after the chunk number
    [k] (from 0): the status has an ['api_usage'] entry or not. *)
Record CancellableAiAnalysisEngine := {
  analyze_with_cancellation :
    string -> string -> AnalysisMode -> option string -> string ->
    list (result string);
  get_status : nat -> result (option ApiUsage)
}.

End Engine.

(** ** The SSE endpoint *)

Module Endpoint.

Import Engine.

(** The JSON objects the generator serialises, one per [data:] frame, by
    their ['type'] field. *)
Inductive Event :=
| Start (analysis_id : string)
| Content (content : string)
| Progress (progress_percentage current_chunk total_chunks
            input_tokens output_tokens : Z)
| Complete
| Cancelled
| Error (error : string).

Definition is_terminal (ev : Event) : bool :=
  match ev with
  | Complete | Cancelled | Error _ => true
  | _ => false
  end.

Definition is_start (ev : Event) : bool :=
  match ev with Start _ => true | _ => false end.

Definition is_content (ev : Event) : bool :=
  match ev with Content _ => true | _ => false end.

(** The [Content] payloads of an event sequence, in order. *)
Definition contents (evs : list Event) : list string :=
  omap (fun ev => match ev with Content c => Some c | _ => None end) evs.

(** Number of [Content] events. *)
Definition count_content (evs : list Event) : Z :=
  Z.of_nat (length (filter (fun ev => is_content ev = true) evs)).

(** What Flask gets back from a view. *)
Inductive GenEnd :=
| Returned
| Uncaught (e : Exn).

Inductive Response :=
| Json (code : Z) (status message : string)
| EventStream (events : list Event) (ending : GenEnd).

(** The events a response delivers to the client. *)
Definition events_of (r : Response) : list Event :=
  match r with
  | Json _ _ _ => []
  | EventStream events _ => events
  end.

(** What the view reads from its surroundings: the environment variable,
    the application's configured engine, the fresh uuid, the mock
    implementation (a view of its own, which returns a response or raises),
    and the values of the enumeration [ModelProvider], declared in
    [src/config/base.py]. *)
Record Env := {
  USE_MOCK_ANALYSIS : option string;
  ANALYSIS_ENGINE : option CancellableAiAnalysisEngine;
  uuid4 : string;
  analyze_with_cancellation_mock_impl :
    string -> string -> string -> string -> result Response;
  ModelProvider_values : list string
}.

(** [ModelProvider(provider)]. *)
Definition ModelProvider_of (env : Env) (provider : string) : result string :=
  if bool_decide (provider ∈ ModelProvider_values env) then Return provider
  else Raise (ValueError ("'" ++ provider ++ "' is not a valid ModelProvider")%string).

(** ASCII lower-casing, enough for [.lower() == 'true']. *)
Definition lower_char (c : ascii) : ascii :=
  let n := nat_of_ascii c in
  if ((65 <=? n) && (n <=? 90))%nat then ascii_of_nat (n + 32) else c.

Fixpoint lower (s : string) : string :=
  match s with
  | EmptyString => EmptyString
  | String c s' => String (lower_char c) (lower s')
  end.

(** [total_chunks = 1], never reassigned. *)
Definition total_chunks : Z := 1.

(** The [while True] loop of [generate]: the events it yields from
    [chunk_count] on, and the exception that leaves it ([None] when it ends
    by [break]). The inner handler catches [StopAsyncIteration] wherever it
    is raised in the loop's body. *)
Fixpoint consume (engine : CancellableAiAnalysisEngine) (async_gen : list (result string))
    (chunk_count : Z) : list Event * option Exn :=
  match async_gen with
  | [] => ([], None)
  | Raise StopAsyncIteration :: _ => ([], None)
  | Raise e :: _ => ([], Some e)
  | Return chunk :: rest =>
      let chunk_count' := chunk_count + 1 in
      let progress := Z.min (chunk_count' * 10) 90 in
      match get_status engine (Z.to_nat chunk_count) with
      | Raise StopAsyncIteration => ([Content chunk], None)
      | Raise e => ([Content chunk], Some e)
      | Return status =>
          let shown :=
            match status with
            | Some api_usage =>
                [Progress progress chunk_count' total_chunks
                   (default 0 (input_tokens api_usage))
                   (default 0 (output_tokens api_usage))]
            | None => []
            end in
          let '(more, e) := consume engine rest chunk_count' in
          (Content chunk :: shown ++ more, e)
      end
  end.

(** The [try] block of [generate] after the start event: the events it
    yields and how it is left ([Return tt]: the generator returns or falls
    through to its end). With no engine configured the generator returns the
    mock view's response, which a generator's [return] hands to nobody. *)
Definition generate_body (env : Env) (content log_type mode provider analysis_id : string)
  : list Event * result unit :=
  match ANALYSIS_ENGINE env with
  | None =>
      match analyze_with_cancellation_mock_impl env content log_type mode provider with
      | Return _ => ([], Return tt)
      | Raise e => ([], Raise e)
      end
  | Some engine =>
      match AnalysisMode_of mode with
      | Raise e => ([], Raise e)
      | Return analysis_mode =>
          let converted :=
            if String.eqb provider "" then Return None
            else p ← ModelProvider_of env provider; Return (Some p) in
          match converted with
          | Raise e => ([], Raise e)
          | Return model_provider =>
              let async_gen :=
                Engine.analyze_with_cancellation engine content log_type
                  analysis_mode model_provider analysis_id in
              match consume engine async_gen 0 with
              | (evs, None) => (evs ++ [Complete], Return tt)
              | (evs, Some e) => (evs, Raise e)
              end
          end
      end
  end.

(** [generate], run to its end: everything it yields, and whether it
    returns or lets an exception through. The handlers are tried in order:
    [CancellationException], then [Exception]; [finally] only closes the
    event loop. *)
Definition generate (env : Env) (content log_type mode provider : string)
  : list Event * GenEnd :=
  let analysis_id := uuid4 env in
  match generate_body env content log_type mode provider analysis_id with
  | (evs, Return _) => (Start analysis_id :: evs, Returned)
  | (evs, Raise CancellationException) =>
      (Start analysis_id :: evs ++ [Cancelled], Returned)
  | (evs, Raise e) =>
      if is_Exception e then (Start analysis_id :: evs ++ [Error (str e)], Returned)
      else (Start analysis_id :: evs, Uncaught e)
  end.

(** The POST body, [request.get_json()]: each key present or not. *)
Record RequestData := {
  content : option string;
  log_type : option string;
  mode : option string;
  provider : option string
}.

(** The view [analyze_with_cancellation]. An empty [str] is the falsy
    content. *)
Definition analyze_with_cancellation (env : Env) (data : RequestData)
  : result Response :=
  let content := default "" (content data) in
  let log_type := default "anr" (log_type data) in
  let mode := default "intelligent" (mode data) in
  let provider := default "anthropic" (provider data) in
  if String.eqb content "" then Return (Json 400 "error" "Content is required")
  else
    let use_mock :=
      String.eqb (lower (default "false" (USE_MOCK_ANALYSIS env))) "true" in
    if use_mock then
      analyze_with_cancellation_mock_impl env content log_type mode provider
    else
      let '(events, ending) := generate env content log_type mode provider in
      Return (EventStream events ending).

End Endpoint.

(** ** The registry's [create] in the specification's words *)

Module Spec.

Import Cancellation.

Inductive CreateError := DuplicateAnalysisId.

(** "Fails with DuplicateAnalysisId if an active token already exists for
    that id; otherwise inserts and returns a new token with
    cancelled=false." Written from the specification, to be compared with
    [Cancellation.create_token]. *)
Definition create (id : string) (now : timestamp) (st : State)
  : CreateError + (ref * State) :=
  match _tokens st !! id with
  | Some _ => inl DuplicateAnalysisId
  | None => inr (create_token id now st)
  end.

End Spec.

(** ** The coordinator, in the specification's words *)

Module Coordinator.

Import Cancellation.

(** Modelled from the spec: the kinds of the terminal [Error] event (§7).
    Missing under [src/]: the engine, [src/core/engine.py], which
    coordinates an analysis, and any method of the manager that removes a
    token; this module follows §3, §4.1 and §4.4 of the specification. *)
Inductive ErrorKind := ProviderFailure | BudgetExceeded | Timeout.

(** Modelled from the spec: the events of §3 that the algorithm of §4.4
    emits, with the payload that algorithm determines. *)
Inductive StreamEvent :=
| Start (analysisId : string)
| Content (text : string)
| Progress (currentChunk totalChunks : nat)
| Complete (totalCost : Z)
| Cancelled
| Error (kind : ErrorKind) (message : string).


(** Modelled from the spec: §4.1, "[cancel(analysisId) -> bool]: returns
    true if a token existed and was not yet cancelled (and flips it to
    cancelled, recording timestamp); returns false if no token exists or it
    was already cancelled." *)
Definition cancel (id : string) (now : timestamp) (st : State) : bool * State :=
  match _tokens st !! id with
  | Some r =>
      match store st !! r with
      | Some tok =>
          if is_cancelled tok then (false, st)
          else (true,
                {| store := <[r := {| analysis_id := analysis_id tok;
                                      is_cancelled := true;
                                      created_at := created_at tok;
                                      cancelled_at := Some now |}]> (store st);
                   _tokens := _tokens st |})
      | None => (false, st)
      end
  | None => (false, st)
  end.

(** Modelled from the spec: §4.1, "[remove(analysisId)]: idempotent;
    removes the entry if present." *)
Definition remove (id : string) (st : State) : State :=
  {| store := store st; _tokens := delete id (_tokens st) |}.

(** Modelled from the spec: §4.1, "[checkCancelled(token) -> bool]:
    non-blocking read of the flag". *)
Definition checkCancelled (token : ref) (st : State) : bool :=
  from_option is_cancelled false (store st !! token).


(** Modelled from the spec: the calls other tasks make on the shared
    registry (§5) while an analysis is suspended. *)
Inductive Call :=
| CallCreate (id : string) (now : timestamp)
| CallCancel (id : string) (now : timestamp)
| CallRemove (id : string).

(** Modelled from the spec: §4.1, one such call; a [create] that fails
    with [DuplicateAnalysisId] changes nothing. *)
Definition call (c : Call) (st : State) : State :=
  match c with
  | CallCreate id now =>
      match Spec.create id now st with
      | inl _ => st
      | inr (_, st') => st'
      end
  | CallCancel id now => snd (cancel id now st)
  | CallRemove id => remove id st
  end.

(** Modelled from the spec: a call of [create] for the given id (§4.1). *)
Definition creates (id : string) (c : Call) : bool :=
  match c with
  | CallCreate id' _ => String.eqb id' id
  | _ => false
  end.

(** Modelled from the spec: §5, calls of other tasks, in the order they
    reach the registry's mutex. *)
Definition calls (cs : list Call) (st : State) : State :=
  foldl (fun s c => call c s) st cs.

(** Modelled from the spec: the configuration inputs of §6 the algorithm
    reads: the check cadence [K] and the progress cadence [N] of §4.4 step
    3c, the optional budget ceiling and the mode's timeout. *)
Record Policy := {
  check_every : nat;
  progress_every : Z;
  budget : option Z;
  timeout : Z
}.

(** Modelled from the spec: §4.3, one step of consuming a provider stream:
    a text fragment, here with its cost and the clock reading at its
    arrival, or the provider's failure. *)
Inductive Arrival :=
| Fragment (text : string) (cost : Z) (clock : Z)
| Fails (detail : string).

(** Modelled from the spec: one chunk as the coordinator meets it: the
    clock reading at the chunk boundary, the calls of other tasks while its
    stream is opened, and its stream, each step with the calls of other
    tasks while the coordinator waits for it (§5: opening a stream and
    consuming a fragment are the only suspension points). *)
Record Chunk := {
  boundary_clock : Z;
  opening : list Call;
  fragments : list (list Call * Arrival)
}.

(** Modelled from the spec: §3 UsageAccumulator (the accumulated cost) and
    the two counters of the cadences of §4.4 step 3c. *)
Record Account := {
  spent : Z;
  since_check : nat;
  since_progress : Z
}.

(** Modelled from the spec: a check point. §4.4 step 3c: "check the token
    -- on cancellation ... emit [Cancelled]"; "Budget enforcement: ... at
    the same cadence as cancellation checks; exceeding it ... emits
    [Error{BudgetExceeded}]"; §5: elapsed time over the timeout emits
    [Error{Timeout}]. The specification gives the three no order; here the
    token is read first. *)
Definition check_point (policy : Policy) (started now : Z) (token : ref)
    (cost : Z) (st : State) : option StreamEvent :=
  if checkCancelled token st then Some Cancelled
  else if from_option (fun ceiling => ceiling <? cost) false (budget policy)
  then Some (Error BudgetExceeded "budget ceiling exceeded")
  else if timeout policy <? now - started
  then Some (Error Timeout "analysis timed out")
  else None.

(** Modelled from the spec: §4.4 steps 3c and 3d, consuming one chunk's
    stream: "for each fragment, append to UsageAccumulator, emit
    [Content{fragment}]; every N characters (or chunk boundary), emit
    [Progress]; every K fragments ... check the token"; "on provider error
    mid-stream ... emit [Error{ProviderFailure, detail}]". The result is
    the events emitted, the terminal event when the stream was left for
    step 5, the account and the registry. *)
Fixpoint consume (policy : Policy) (started : Z) (token : ref)
    (current total : nat) (stream : list (list Call * Arrival))
    (acc : Account) (st : State)
  : list StreamEvent * option StreamEvent * Account * State :=
  match stream with
  | [] => ([], None, acc, st)
  | (heard, arrival) :: rest =>
      let st := calls heard st in
      match arrival with
      | Fails detail => ([], Some (Error ProviderFailure detail), acc, st)
      | Fragment text cost clock =>
          let cost := spent acc + cost in
          let chars := since_progress acc + Streaming.len text in
          let progress_due := progress_every policy <=? chars in
          let shown := if progress_due then [Progress current total] else [] in
          let seen := S (since_check acc) in
          let check_due := (check_every policy <=? seen)%nat in
          let acc := {| spent := cost;
                        since_check := if check_due then O else seen;
                        since_progress := if progress_due then 0 else chars |} in
          match (if check_due then check_point policy started clock token cost st
                 else None) with
          | Some closing => (Content text :: shown, Some closing, acc, st)
          | None =>
              let '(more, closing, acc, st) :=
                consume policy started token current total rest acc st in
              (Content text :: shown ++ more, closing, acc, st)
          end
      end
  end.

(** Modelled from the spec: §4.4 steps 3 and 4, the chunks in order: "3a.
    Before opening the provider stream, check the token; if cancelled, emit
    [Cancelled] and go to step 5"; "4. After all chunks succeed, emit
    [Complete]". The result is the events before the terminal one, the
    terminal event, and the registry. *)
Fixpoint stream_chunks (policy : Policy) (started : Z) (token : ref)
    (current total : nat) (chunks : list Chunk) (acc : Account) (st : State)
  : list StreamEvent * StreamEvent * State :=
  match chunks with
  | [] => ([], Complete (spent acc), st)
  | chunk :: rest =>
      match check_point policy started (boundary_clock chunk) token (spent acc) st with
      | Some closing => ([], closing, st)
      | None =>
          let st := calls (opening chunk) st in
          match consume policy started token current total (fragments chunk) acc st with
          | (evs, Some closing, _, st) => (evs, closing, st)
          | (evs, None, acc, st) =>
              let '(more, closing, st) :=
                stream_chunks policy started token (S current) total rest acc st in
              (evs ++ Progress current total :: more, closing, st)
          end
      end
  end.

(** Modelled from the spec: §7, the error returned before any event. *)
Inductive Rejection := ChunkingError.

(** Modelled from the spec: §4.4, the algorithm per analysis: "1. Emit
    [Start]. 2. Obtain chunk sequence from Chunker (or fail with
    [ChunkingError] if content is empty ...)", steps 3 and 4, and "5.
    Remove the token from the registry (always -- this is the single
    unconditional cleanup step reached from every path, success or
    failure)". No chunk stands for the empty content, which §7 rejects
    before any event. The terminal event and step 5 are not separated by a
    suspension point (§5), so no call of another task comes between
    them. *)
Definition coordinate (policy : Policy) (started : Z) (id : string) (token : ref)
    (chunks : list Chunk) (st : State)
  : (Rejection + list StreamEvent) * State :=
  match chunks with
  | [] => (inl ChunkingError, remove id st)
  | _ :: _ =>
      let '(evs, closing, st) :=
        stream_chunks policy started token 1 (length chunks) chunks
          {| spent := 0; since_check := O; since_progress := 0 |} st in
      (inr (Start id :: evs ++ [closing]), remove id st)
  end.

End Coordinator.

(** ** Retrying a rate-limited request *)

Module Retry.

(** What [request_with_retry] reads of a [requests.Response]: the status
    code and, when the [Retry-After] header is present, what [int()] makes
    of it (a number, or [ValueError] when it is not a number). *)
Record Response := {
  status_code : Z;
  Retry_After : option (result Z)
}.

(** A run of [request_with_retry]: what it returns ([None] when the loop
    runs out) or raises, how many requests it made and the sleeps it took,
    in order. *)
Record Outcome := {
  returned : result (option Response);
  requests : nat;
  slept : list Z
}.

(** The longest sleep: [time.sleep] turns the length into the C clock's
    nanoseconds, a signed 64-bit integer. *)
Definition sleep_max : Z := (2 ^ 63 - 1) / 10 ^ 9.

(** [time.sleep(secs)] for an [int]: [OverflowError] when the length does
    not fit the clock, [ValueError] when it is negative. *)
Definition time_sleep (secs : Z) : result unit :=
  if (secs <? - sleep_max) || (sleep_max <? secs) then
    Raise (OverflowError "timestamp too large to convert to C _PyTime_t")
  else if secs <? 0 then Raise (ValueError "sleep length must be non-negative")
  else Return tt.

(** The [for] loop from iteration [i], with [n] iterations left.
    [requests_get url k] is what the call number [k] (from 0) of
    [requests.get(url)] does. *)
Fixpoint attempts (requests_get : string -> nat -> result Response)
    (url : string) (i n : nat) : Outcome :=
  match n with
  | O => {| returned := Return None; requests := 0; slept := [] |}
  | S n' =>
      match requests_get url i with
      | Raise e => {| returned := Raise e; requests := 1; slept := [] |}
      | Return response =>
          if status_code response =? 429 then
            match default (Return 60) (Retry_After response) with
            | Raise e => {| returned := Raise e; requests := 1; slept := [] |}
            | Return retry_after =>
                match time_sleep retry_after with
                | Raise e => {| returned := Raise e; requests := 1; slept := [] |}
                | Return _ =>
                    let more := attempts requests_get url (S i) n' in
                    {| returned := returned more;
                       requests := S (requests more);
                       slept := retry_after :: slept more |}
                end
            end
          else {| returned := Return (Some response); requests := 1; slept := [] |}
      end
  end.


(** [request_with_retry]: [range(max_retries)] is empty for a count that is
    not positive. *)
Definition request_with_retry (requests_get : string -> nat -> result Response)
    (url : string) (max_retries : Z) : Outcome :=
  attempts requests_get url 0 (Z.to_nat max_retries).

End Retry.

(** ** Reading a file in chunks *)

Module FileReader.

Section Files.
Context {A : Type}.





End Files.

(** The default of [read_in_chunks]'s [chunk_size]. *)
Definition default_chunk_size : Z := 1024 * 1024.

End FileReader.

(** ** The React component of the design document *)

Module AnalysisComponent.

Import Endpoint.

(** [JSON.parse(event.data)], by its [type]: one of the objects the
    generator serialises, or an object of a type the [switch] has no case
    for. *)
Inductive Data :=
| Sent (ev : Event)
| Other (type : string).

(** The calls to the helpers the component does not define. *)
Inductive Call :=
| updateProgress (progress_percentage current_chunk total_chunks
                  input_tokens output_tokens : Z)
| handleError (error : string).

(** What [fetch] does: it resolves with a response that is [ok] or not, or
    it rejects. *)
Inductive Fetch :=
| Responded (ok : bool)
| Rejected.

(** The component's state variables, the event source of
    [eventSourceRef.current] ([None]: none yet; otherwise whether it is
    still open), and the helper calls made so far. *)
Record State := {
  isAnalyzing : bool;
  analysisId : option string;
  result : string;
  eventSource : option bool;
  calls : list Call
}.

(** The initial values of the hooks. *)
Definition initial : State :=
  {| isAnalyzing := false; analysisId := None; result := "";
     eventSource := None; calls := [] |}.

(** [startAnalysis]: the flag and the result are reset and a new event
    source is opened; [analysisId] is left as it was. *)
Definition startAnalysis (st : State) : State :=
  {| isAnalyzing := true; analysisId := analysisId st; result := "";
     eventSource := Some true; calls := calls st |}.

(** [eventSource.close()]. *)
Definition close (st : State) : State :=
  {| isAnalyzing := isAnalyzing st; analysisId := analysisId st;
     result := result st; eventSource := Some false; calls := calls st |}.

(** The text appended to the result on cancellation. *)
Definition cancelled_mark : string :=
  String "010" (String "010" "[分析已取消]").

(** [eventSource.onmessage]. *)
Definition onmessage (st : State) (data : Data) : State :=
  match data with
  | Sent (Start id) =>
      {| isAnalyzing := isAnalyzing st; analysisId := Some id;
         result := result st; eventSource := eventSource st; calls := calls st |}
  | Sent (Content c) =>
      {| isAnalyzing := isAnalyzing st; analysisId := analysisId st;
         result := (result st ++ c)%string;
         eventSource := eventSource st; calls := calls st |}
  | Sent (Progress p c t i o) =>
      {| isAnalyzing := isAnalyzing st; analysisId := analysisId st;
         result := result st; eventSource := eventSource st;
         calls := calls st ++ [updateProgress p c t i o] |}
  | Sent Complete =>
      close {| isAnalyzing := false; analysisId := analysisId st;
               result := result st; eventSource := eventSource st;
               calls := calls st |}
  | Sent Cancelled =>
      close {| isAnalyzing := false; analysisId := analysisId st;
               result := (result st ++ cancelled_mark)%string;
               eventSource := eventSource st; calls := calls st |}
  | Sent (Error e) =>
      close {| isAnalyzing := false; analysisId := analysisId st;
               result := result st; eventSource := eventSource st;
               calls := calls st ++ [handleError e] |}
  | Other _ => st
  end.

(** The browser hands a message to [onmessage] only while the source is
    open. *)
Definition deliver (st : State) (data : Data) : State :=
  match eventSource st with
  | Some true => onmessage st data
  | _ => st
  end.

Definition receive (st : State) (messages : list Data) : State :=
  foldl deliver st messages.

(** [cancelAnalysis]: the state afterwards and the URL requested, if any.
    A [null] or empty [analysisId] returns at once. *)
Definition cancelAnalysis (fetch : string -> Fetch) (st : State)
  : State * option string :=
  match analysisId st with
  | None => (st, None)
  | Some id =>
      if String.eqb id "" then (st, None)
      else
        let url := ("/api/ai/cancel/" ++ id)%string in
        match fetch url with
        | Responded true =>
            (match eventSource st with
             | Some _ => close st
             | None => st
             end, Some url)
        | Responded false => (st, Some url)
        | Rejected => (st, Some url)
        end
  end.

(** The texts of a list of strings put together. *)
Definition joined (texts : list string) : string :=
  foldr String.append "" texts.

(** The payloads of the content messages of a list, in order. *)
Definition texts (messages : list Data) : list string :=
  omap (fun data => match data with
                    | Sent (Content c) => Some c
                    | _ => None
                    end) messages.

(** A message that does not end the analysis. *)
Definition ongoing (data : Data) : bool :=
  match data with
  | Sent ev => negb (is_terminal ev)
  | Other _ => true
  end.

(** What a terminal event adds to the result. *)
Definition closing_text (ev : Event) : string :=
  match ev with
  | Cancelled => cancelled_mark
  | _ => ""
  end.

End AnalysisComponent.

(** ** The browser's API client *)

Module ApiClient.

(** A value read from [localStorage] is truthy when it is there and not
    empty. *)
Definition truthy (item : option string) : bool :=
  match item with
  | Some s => negb (String.eqb s "")
  | None => false
  end.

(** [getHeaders], on the contents of [localStorage]. *)
Definition getHeaders (localStorage : gmap string string) : gmap string string :=
  let headers : gmap string string := {[ "Content-Type" := "application/json" ]} in
  let headers :=
    if truthy (localStorage !! "authToken")
    then <[ "Authorization" :=
              ("Bearer " ++ default "" (localStorage !! "authToken"))%string ]> headers
    else headers in
  let headers :=
    if truthy (localStorage !! "sessionToken")
    then <[ "X-Session-Token" := default "" (localStorage !! "sessionToken") ]> headers
    else headers in
  headers.

(** [s.includes(sub)]. *)
Definition includes (s sub : string) : bool :=
  match String.index 0 sub s with
  | Some _ => true
  | None => false
  end.

(** [handleError], on the error's message: the text of the object it
    returns and [localStorage] afterwards. *)
Definition handleError (message : string) (localStorage : gmap string string)
  : string * gmap string string :=
  if includes message "timeout" then ("請求超時，請重試", localStorage)
  else if includes message "401" then
    ("認證失敗，請重新登入", delete "sessionToken" (delete "authToken" localStorage))
  else if includes message "429" then ("請求過於頻繁，請稍後再試", localStorage)
  else (if String.eqb message "" then "未知錯誤" else message, localStorage).

(** [v.toString(16)] for a value from 0 to 15. *)
Definition toString16 (v : Z) : ascii :=
  nth (Z.to_nat v) (list_ascii_of_string "0123456789abcdef") "0"%char.

(** The [replace] of [generateAnalysisId] over what is left of the
    template: every [x] and [y] draws a value. [random16 k] is the value of
    [Math.random() * 16 | 0] at the draw number [k] (from 0). *)
Fixpoint replace_xy (template : string) (random16 : nat -> Z) (k : nat) : string :=
  match template with
  | EmptyString => EmptyString
  | String c rest =>
      if Ascii.eqb c "x" then
        String (toString16 (random16 k)) (replace_xy rest random16 (S k))
      else if Ascii.eqb c "y" then
        String (toString16 (Z.lor (Z.land (random16 k) 3) 8))
               (replace_xy rest random16 (S k))
      else String c (replace_xy rest random16 k)
  end.

(** [generateAnalysisId]. *)
Definition generateAnalysisId (random16 : nat -> Z) : string :=
  replace_xy "xxxxxxxx-xxxx-4xxx-yxxx-xxxxxxxxxxxx" random16 0.

(** A lower-case hexadecimal digit. *)
Definition hex_digit (c : ascii) : bool :=
  bool_decide (c ∈ list_ascii_of_string "0123456789abcdef").

(** The layout of a version 4 UUID, read off a template: [x] stands for a
    hexadecimal digit, [y] for one of 8, 9, a, b, any other character for
    itself; the lengths agree. *)
Fixpoint fits (template id : string) : bool :=
  match template, id with
  | EmptyString, EmptyString => true
  | String t template', String c id' =>
      (if Ascii.eqb t "x" then hex_digit c
       else if Ascii.eqb t "y" then
         bool_decide (c ∈ list_ascii_of_string "89ab")
       else Ascii.eqb c t)
      && fits template' id'
  | _, _ => false
  end.

End ApiClient.

(** ** Validating an uploaded file *)

Module FileHandler.

(** [s.lastIndexOf(c)] for a character [c]: -1 when it does not occur. *)
Fixpoint lastIndexOf (c : ascii) (s : string) : Z :=
  match s with
  | EmptyString => -1
  | String a rest =>
      let j := lastIndexOf c rest in
      if 0 <=? j then j + 1
      else if Ascii.eqb a c then 0 else -1
  end.

(** [s.substring(start)]: a negative start counts as 0. *)
Definition substring (start : Z) (s : string) : string :=
  String.substring (Z.to_nat start) (String.length s - Z.to_nat start) s.

(** What [validateFile] reads of a [File]. *)
Record File := {
  name : string;
  size : Z
}.

Record Validation := {
  valid : bool;
  message : option string
}.

Definition maxSize : Z := 20 * 1024 * 1024.

Definition allowedTypes : list string := [".txt"; ".log"].

(** [validateFile]. Lower-casing is that of the ASCII letters: no other
    character becomes a character of an allowed extension. *)
Definition validateFile (file : File) : Validation :=
  let extension :=
    Endpoint.lower (substring (lastIndexOf "." (name file)) (name file)) in
  if negb (bool_decide (extension ∈ allowedTypes)) then
    {| valid := false; message := Some "請上傳 .txt 或 .log 檔案" |}
  else if maxSize <? size file then
    {| valid := false; message := Some "檔案大小不能超過 20MB" |}
  else {| valid := true; message := None |}.

End FileHandler.

(** ** Escaping HTML *)

Module Utils.

(** The entity of [map[m]] for the five characters of the class; any other
    character is not matched and stays. *)
Definition escape_char (m : ascii) : string :=
  if Ascii.eqb m "&" then "&amp;"
  else if Ascii.eqb m "<" then "&lt;"
  else if Ascii.eqb m ">" then "&gt;"
  else if Ascii.eqb m "034" then "&quot;"
  else if Ascii.eqb m "'" then "&#039;"
  else String m EmptyString.

(** [escapeHtml]. *)
Fixpoint escapeHtml (text : string) : string :=
  match text with
  | EmptyString => EmptyString
  | String m rest => (escape_char m ++ escapeHtml rest)%string
  end.

End Utils.

(** ** Vocabulary for the manager's clients *)

Module Manager.

Import Cancellation.

(** A call of one of the manager's two methods, as opposed to [cancel] on
    a token held directly. *)
Definition manager_call (op : Op) : bool :=
  match op with
  | OpCreate _ _ | OpCancelAnalysis _ _ => true
  | OpTokenCancel _ _ => false
  end.

(** A [create_token] for the given id. *)
Definition creates (id : string) (op : Op) : bool :=
  match op with
  | OpCreate id' _ => String.eqb id' id
  | _ => false
  end.

(** Every reference in the dictionary names a stored token. *)
Definition wf (st : State) : Prop :=
  forall id r, _tokens st !! id = Some r -> (r < length (store st))%nat.

End Manager.

(** * Properties *)

(** ** Tokens and registry *)

Section CancellationFacts.

Import Cancellation.

Lemma cancel_cancelled tc now tok :
  is_cancelled tok = true -> cancel tc now tok = (Return tt, tok).
Proof. unfold cancel. intros ->. reflexivity. Qed.

Lemma cancel_ref_keeps tc r' now st r tok :
  store st !! r = Some tok -> is_cancelled tok = true ->
  store (snd (cancel_ref tc r' now st)) !! r = Some tok.
Proof.
  intros Hr Hc. unfold cancel_ref; simpl.
  rewrite list_lookup_alter. case_decide as E; [subst r'|exact Hr].
  rewrite Hr. simpl. rewrite cancel_cancelled by exact Hc. reflexivity.
Qed.

Lemma cancel_analysis_keeps tc id now st r tok :
  store st !! r = Some tok -> is_cancelled tok = true ->
  store (snd (cancel_analysis tc id now st)) !! r = Some tok.
Proof.
  intros Hr Hc. unfold cancel_analysis.
  destruct (_tokens st !! id) as [r'|]; [|exact Hr].
  destruct (store st !! r') as [tok'|]; [|exact Hr].
  destruct (negb (is_cancelled tok')); [|exact Hr].
  cbn [snd]. apply cancel_ref_keeps; assumption.
Qed.

Lemma create_token_keeps id now st r tok :
  store st !! r = Some tok ->
  store (snd (create_token id now st)) !! r = Some tok.
Proof.
  intros Hr. simpl. rewrite lookup_app_l; [exact Hr|].
  eapply lookup_lt_Some, Hr.
Qed.

Lemma step_keeps tc op st r tok :
  store st !! r = Some tok -> is_cancelled tok = true ->
  store (step tc op st) !! r = Some tok.
Proof.
  intros Hr Hc. destruct op; cbn [step].
  - apply create_token_keeps, Hr.
  - apply cancel_analysis_keeps; assumption.
  - apply cancel_ref_keeps; assumption.
Qed.

Lemma run_keeps tc ops : forall st r tok,
  store st !! r = Some tok -> is_cancelled tok = true ->
  store (run tc ops st) !! r = Some tok.
Proof.
  induction ops as [|op ops IH]; intros st r tok Hr Hc; [exact Hr|].
  simpl. apply IH; [|exact Hc]. apply step_keeps; assumption.
Qed.

(** A call of [cancel_analysis] that does not return [False] found an
    active token and has called its [cancel]. *)
Lemma cancel_analysis_called tc id now st called st1 :
  cancel_analysis tc id now st = (called, st1) -> called <> Return false ->
  exists r tok, _tokens st !! id = Some r /\ store st !! r = Some tok /\
    is_cancelled tok = false /\ st1 = snd (cancel_ref tc r now st) /\
    called = (_ ← fst (cancel tc now tok); Return true).
Proof.
  unfold cancel_analysis. intros H Hne.
  destruct (_tokens st !! id) as [r|]; [|congruence].
  destruct (store st !! r) as [tok|] eqn:Hr; [|congruence].
  destruct (is_cancelled tok) eqn:Hc; cbn [negb] in H; [congruence|].
  exists r, tok. injection H as <- <-. unfold cancel_ref. cbn [fst snd].
  rewrite Hr. auto.
Qed.

(** No call removes an entry of [_tokens]. *)
Lemma step_registered tc op st id :
  is_Some (_tokens st !! id) -> is_Some (_tokens (step tc op st) !! id).
Proof.
  intros Hid. destruct op as [id' now|id' now|r now]; simpl.
  - destruct (decide (id' = id)) as [->|Hne].
    + rewrite lookup_insert_eq. eauto.
    + rewrite lookup_insert_ne by exact Hne. exact Hid.
  - unfold cancel_analysis.
    destruct (_tokens st !! id') as [r'|]; [|exact Hid].
    destruct (store st !! r') as [tok'|]; [|exact Hid].
    destruct (negb (is_cancelled tok')); exact Hid.
  - exact Hid.
Qed.

Lemma run_registered tc ops : forall st id,
  is_Some (_tokens st !! id) -> is_Some (_tokens (run tc ops st) !! id).
Proof.
  induction ops as [|op ops IH]; intros st id Hid; [exact Hid|].
  simpl. apply IH, step_registered, Hid.
Qed.

(** C2. A cancelled token stays as it is whatever calls follow and whatever
    the callbacks do: its flag stays true and its cancellation timestamp
    stays the one recorded when it was cancelled. In particular a further
    [cancel_analysis] on its id returns [False] and changes nothing,
    without raising, and when the token was cancelled by a first
    [cancel_analysis] at [t1] (a call that returned [True], or one whose
    callbacks raised), [t1] is the timestamp it keeps. *)
Theorem C2_cancelled_token_stays_cancelled
    (_trigger_callbacks : Callbacks)
    (st : State) (r : ref) (tok : CancellationToken) :
  store st !! r = Some tok ->
  is_cancelled tok = true ->
  (forall ops, store (run _trigger_callbacks ops st) !! r = Some tok) /\
  (forall id, _tokens st !! id = Some r ->
     (forall t2, cancel_analysis _trigger_callbacks id t2 st = (Return false, st)) /\
     (forall st0 t1 called,
        cancel_analysis _trigger_callbacks id t1 st0 = (called, st) ->
        called <> Return false ->
        cancelled_at tok = Some t1 /\
        forall t2,
          cancel_analysis _trigger_callbacks id t2 st = (Return false, st) /\
          get id (snd (cancel_analysis _trigger_callbacks id t2 st)) = Some tok)).
Proof.
  intros Hr Hc. split; [intros ops; apply run_keeps; assumption|].
  intros id Hid.
  assert (Hsecond : forall t2,
            cancel_analysis _trigger_callbacks id t2 st = (Return false, st)).
  { intros t2. unfold cancel_analysis. rewrite Hid, Hr, Hc. reflexivity. }
  split; [exact Hsecond|].
  intros st0 t1 called H1 Hne.
  destruct (cancel_analysis_called _ _ _ _ _ _ H1 Hne)
    as (r0 & tok0 & Hid0 & Hr0 & Hc0 & -> & _).
  simpl in Hid. rewrite Hid0 in Hid. injection Hid as ->.
  simpl in Hr. rewrite list_lookup_alter in Hr.
  case_decide; [|congruence]. rewrite Hr0 in Hr. simpl in Hr.
  injection Hr as <-. unfold cancel. rewrite Hc0. simpl.
  split; [reflexivity|]. intros t2. split; [apply Hsecond|].
  rewrite Hsecond. simpl. unfold get. simpl. rewrite Hid0. simpl.
  rewrite list_lookup_alter. case_decide; [|congruence].
  rewrite Hr0. simpl. unfold cancel. rewrite Hc0. reflexivity.
Qed.

(** A token created at 10 and cancelled at 20; cancelled again at 30. *)
Lemma C2_witness :
  let st := run no_callbacks [OpCreate "a1" 10; OpCancelAnalysis "a1" 20] init in
  let tok := {| analysis_id := "a1"; is_cancelled := true;
                created_at := 10; cancelled_at := Some 20 |} in
  (forall ops, store (run no_callbacks ops st) !! 0%nat = Some tok) /\
  (forall id, _tokens st !! id = Some 0%nat ->
     (forall t2, cancel_analysis no_callbacks id t2 st = (Return false, st)) /\
     (forall st0 t1 called,
        cancel_analysis no_callbacks id t1 st0 = (called, st) ->
        called <> Return false ->
        cancelled_at tok = Some t1 /\
        forall t2,
          cancel_analysis no_callbacks id t2 st = (Return false, st) /\
          get id (snd (cancel_analysis no_callbacks id t2 st)) = Some tok)).
Proof.
  apply (C2_cancelled_token_stays_cancelled no_callbacks
           (run no_callbacks [OpCreate "a1" 10; OpCancelAnalysis "a1" 20] init) 0%nat);
    reflexivity.
Defined.

(** C3. For an id with no entry in [_tokens], [cancel_analysis] returns
    [False], raises nothing and leaves the manager as it was, whatever the
    callbacks would do; the helper [handle_cancellation] returns [False] as
    well (the [CancellationNotFoundError] it raises is caught inside it),
    and the endpoint answers with its not-found response, not through its
    exception handler. *)
Theorem C3_cancel_unknown_id
    (_trigger_callbacks : Callbacks)
    (st : State) (id : string) (now utcnow : timestamp) :
  _tokens st !! id = None ->
  cancel_analysis _trigger_callbacks id now st = (Return false, st) /\
  handle_cancellation _trigger_callbacks id now st = (Return (Some false), st) /\
  cancel_endpoint _trigger_callbacks id now utcnow st =
    (Return (NotFound404 "Analysis not found or already completed"), st).
Proof.
  intros Hid.
  assert (H : cancel_analysis _trigger_callbacks id now st = (Return false, st)).
  { unfold cancel_analysis. rewrite Hid. reflexivity. }
  unfold handle_cancellation, cancel_endpoint. rewrite H. auto.
Qed.

Lemma C3_witness :
  cancel_analysis no_callbacks "b2" 5 (run no_callbacks [OpCreate "a1" 1] init)
    = (Return false, run no_callbacks [OpCreate "a1" 1] init) /\
  handle_cancellation no_callbacks "b2" 5 (run no_callbacks [OpCreate "a1" 1] init)
    = (Return (Some false), run no_callbacks [OpCreate "a1" 1] init) /\
  cancel_endpoint no_callbacks "b2" 5 6 (run no_callbacks [OpCreate "a1" 1] init) =
    (Return (NotFound404 "Analysis not found or already completed"),
     run no_callbacks [OpCreate "a1" 1] init).
Proof.
  apply (C3_cancel_unknown_id no_callbacks
           (run no_callbacks [OpCreate "a1" 1] init) "b2" 5 6).
  reflexivity.
Defined.

(** C5, as stated, fails: with an active token registered under ["a1"], the
    specification's [create] fails with [DuplicateAnalysisId], while
    [create_token] registers a second token under the id. *)
Lemma C5_counterexample :
  let st := run no_callbacks [OpCreate "a1" 10] init in
  get "a1" st = Some (new_token "a1" 10) /\
  Spec.create "a1" 11 st = inl Spec.DuplicateAnalysisId /\
  fst (create_token "a1" 11 st) = 1%nat /\
  get "a1" (snd (create_token "a1" 11 st)) = Some (new_token "a1" 11) /\
  Spec.create "a1" 11 st <> inr (create_token "a1" 11 st).
Proof. repeat split; try reflexivity. discriminate. Qed.

(** C5, amended. [create_token] never fails: it constructs a fresh token
    with [is_cancelled = False] and no cancellation timestamp, registers it
    under the id in place of whatever was there, and returns it; the other
    ids and every token object that existed before are untouched. Where the
    id had no entry this is what the specification's [create] does. *)
Theorem C5_create_token_always_inserts
    (st : State) (id : string) (now : timestamp) :
  let r := fst (create_token id now st) in
  let st' := snd (create_token id now st) in
  store st !! r = None /\
  store st' !! r = Some (new_token id now) /\
  _tokens st' !! id = Some r /\
  get id st' = Some (new_token id now) /\
  is_cancelled (new_token id now) = false /\
  cancelled_at (new_token id now) = None /\
  (forall id', id' <> id -> _tokens st' !! id' = _tokens st !! id') /\
  (forall r' tok, store st !! r' = Some tok -> store st' !! r' = Some tok) /\
  (_tokens st !! id = None -> Spec.create id now st = inr (create_token id now st)).
Proof.
  simpl.
  assert (Hnew : (store st ++ [new_token id now]) !! length (store st)
                 = Some (new_token id now)).
  { rewrite lookup_app_r by lia. rewrite Nat.sub_diag. reflexivity. }
  repeat split.
  - apply lookup_ge_None. lia.
  - exact Hnew.
  - apply lookup_insert_eq.
  - unfold get. simpl. rewrite lookup_insert_eq. exact Hnew.
  - intros id' Hne. apply lookup_insert_ne. congruence.
  - intros r' tok Hr. rewrite lookup_app_l; [exact Hr|].
    eapply lookup_lt_Some, Hr.
  - intros Hid. unfold Spec.create. rewrite Hid. reflexivity.
Qed.

Lemma C5_witness :
  let st := run no_callbacks [OpCreate "a1" 10] init in
  let r := fst (create_token "b2" 11 st) in
  let st' := snd (create_token "b2" 11 st) in
  store st !! r = None /\
  store st' !! r = Some (new_token "b2" 11) /\
  _tokens st' !! "b2" = Some r /\
  get "b2" st' = Some (new_token "b2" 11) /\
  is_cancelled (new_token "b2" 11) = false /\
  cancelled_at (new_token "b2" 11) = None /\
  (forall id', id' <> "b2" -> _tokens st' !! id' = _tokens st !! id') /\
  (forall r' tok, store st !! r' = Some tok -> store st' !! r' = Some tok) /\
  (_tokens st !! "b2" = None ->
   Spec.create "b2" 11 st = inr (create_token "b2" 11 st)).
Proof.
  exact (C5_create_token_always_inserts
           (run no_callbacks [OpCreate "a1" 10] init) "b2" 11).
Defined.

Lemma run_app tc ops1 ops2 st :
  run tc (ops1 ++ ops2) st = run tc ops2 (run tc ops1 st).
Proof. unfold run. apply foldl_app. Qed.

End CancellationFacts.

(** ** The analyzer's loop *)

Section AnalyzerFacts.

Import Cancellation Analyzer.

Example analyze_anr_async_cancelled_midway :
  let st := run no_callbacks [OpCreate "id-1" 10] init in
  analyze_anr_async no_callbacks (Some 0%nat)
    [([], Return (other_event "message_start"));
     ([], Return (content_block_delta "Main thread "));
     ([OpCancelAnalysis "id-1" 20], Return (content_block_delta "is blocked"));
     ([], Return (content_block_delta " on a lock"))] st
  = {| yielded := ["Main thread "];
       final := run no_callbacks [OpCancelAnalysis "id-1" 20] st;
       cleaned_up := true;
       ending := Raise CancelledError |}.
Proof. reflexivity. Qed.

(** A provider whose stream is at its end: the loop is left, nothing is
    raised and no clean-up runs. *)
Example analyze_anr_async_end_of_stream :
  analyze_anr_async no_callbacks None
    [([], Return (content_block_delta "Main thread "));
     ([], Raise StopAsyncIteration);
     ([], Return (content_block_delta "is blocked"))] init
  = {| yielded := ["Main thread "]; final := init;
       cleaned_up := false; ending := Return tt |}.
Proof. reflexivity. Qed.

(** A token that is not cancelled after some calls was not cancelled
    before them. *)
Lemma not_cancelled_before tc ops st r tok tok' :
  store st !! r = Some tok ->
  store (run tc ops st) !! r = Some tok' -> is_cancelled tok' = false ->
  is_cancelled tok = false.
Proof.
  intros Hr Hr' Hc'. destruct (is_cancelled tok) eqn:Hc; [|reflexivity].
  rewrite (run_keeps tc ops st r tok Hr Hc) in Hr'. congruence.
Qed.

(** A cancel request takes effect at the next event of the provider's
    stream. While the token is not cancelled and the provider delivers,
    the analyzer yields the text of every delta; at the first event that
    arrives after the token was cancelled it runs [_cleanup] and raises
    [CancelledError], yielding neither that event's text nor anything
    after it. *)
Theorem analyzer_stops_at_next_event
    (_trigger_callbacks : Callbacks)
    (r : ref) (before after : list (list Op * result ProviderEvent))
    (calls : list Op) (event : ProviderEvent) (st : State)
    (tok0 tok1 : CancellationToken) :
  Forall (fun step => exists ev, snd step = Return ev) before ->
  store (run _trigger_callbacks (calls_of before) st) !! r = Some tok0 ->
  is_cancelled tok0 = false ->
  store (run _trigger_callbacks calls
           (run _trigger_callbacks (calls_of before) st)) !! r = Some tok1 ->
  is_cancelled tok1 = true ->
  analyze_anr_async _trigger_callbacks (Some r)
    (before ++ (calls, Return event) :: after) st
  = {| yielded := delta_texts before;
       final := run _trigger_callbacks calls
                  (run _trigger_callbacks (calls_of before) st);
       cleaned_up := true;
       ending := Raise CancelledError |}.
Proof.
  revert st. induction before as [|[calls0 next0] before IH];
    intros st Hdeliver H0 Hc0 H1 Hc1.
  - simpl in *. rewrite H1. unfold check_cancelled_async. rewrite Hc1. reflexivity.
  - inversion Hdeliver as [|? ? [ev0 Hev0] Hrest]; subst. simpl in Hev0. subst next0.
    unfold calls_of in H0, H1 |- *. simpl in H0, H1 |- *.
    rewrite run_app in H0, H1 |- *.
    assert (Hpass : match store (run _trigger_callbacks calls0 st) !! r with
                    | Some tok => check_cancelled_async tok
                    | None => Return tt
                    end = Return tt).
    { destruct (store (run _trigger_callbacks calls0 st) !! r) as [tok|] eqn:Hr;
        [|reflexivity].
      unfold check_cancelled_async.
      rewrite (not_cancelled_before _ _ _ _ _ _ Hr H0 Hc0). reflexivity. }
    rewrite Hpass.
    rewrite (IH (run _trigger_callbacks calls0 st) Hrest H0 Hc0 H1 Hc1).
    unfold delta_texts. destruct ev0; reflexivity.
Qed.

Lemma analyzer_stops_at_next_event_witness :
  analyze_anr_async no_callbacks (Some 0%nat)
    ([([], Return (content_block_delta "Main thread "))]
     ++ ([OpCancelAnalysis "id-1" 20], Return (content_block_delta "is blocked"))
     :: [([], Return (content_block_delta " on a lock"))])
    (run no_callbacks [OpCreate "id-1" 10] init)
  = {| yielded := delta_texts [([], Return (content_block_delta "Main thread "))];
       final := run no_callbacks [OpCancelAnalysis "id-1" 20]
                  (run no_callbacks
                     (calls_of [([], Return (content_block_delta "Main thread "))])
                     (run no_callbacks [OpCreate "id-1" 10] init));
       cleaned_up := true;
       ending := Raise CancelledError |}.
Proof.
  apply (analyzer_stops_at_next_event no_callbacks 0%nat
           [([], Return (content_block_delta "Main thread "))]
           [([], Return (content_block_delta " on a lock"))]
           [OpCancelAnalysis "id-1" 20] (content_block_delta "is blocked")
           (run no_callbacks [OpCreate "id-1" 10] init)
           (new_token "id-1" 10) (snd (cancel no_callbacks 20 (new_token "id-1" 10)))).
  - repeat constructor. eexists. reflexivity.
  - reflexivity.
  - reflexivity.
  - reflexivity.
  - reflexivity.
Defined.

End AnalyzerFacts.

(** ** Check cadence *)

Section StreamingFacts.

Import Streaming.

Lemma counter_after_unchecked mid : forall c0,
  Forall unchecked mid -> counter_after c0 mid = c0 + chars mid.
Proof.
  induction mid as [|u mid IH]; intros c0 Hmid; simpl; [lia|].
  inversion Hmid as [|? ? Hu Hrest]; subst.
  unfold counter_after in *. simpl. rewrite Hu, IH by exact Hrest. lia.
Qed.

Lemma counter_after_check pre c mid c0 :
  checked c = true -> Forall unchecked mid ->
  counter_after c0 (pre ++ c :: mid) = chars mid.
Proof.
  intros Hc Hmid. unfold counter_after. rewrite foldl_app. simpl.
  rewrite Hc. apply (counter_after_unchecked mid 0 Hmid).
Qed.

(** The loop's invariant: a fragment is checked exactly when the counter,
    with the fragment added, has reached the interval; the attribute ends
    as the fold of the log says unless the check raised. *)
Lemma stream_with_cancellation_log ai_stream : forall self log self' r,
  stream_with_cancellation self ai_stream = (log, self', r) ->
  check_interval self' = check_interval self /\
  (forall pre t post, log = pre ++ t :: post ->
     checked t = (check_interval self <=?
                  counter_after (chars_since_check self) pre + len (fragment t))) /\
  (r = Return tt ->
     chars_since_check self' = counter_after (chars_since_check self) log).
Proof.
  induction ai_stream as [|[chunk chk] rest IH]; intros self log self' r H.
  - simpl in H. injection H as <- <- <-. repeat split; auto.
    intros pre t post E. destruct pre; discriminate.
  - simpl in H.
    destruct (check_interval self <=? chars_since_check self + len chunk) eqn:Hle.
    + destruct chk as [[]|e].
      * destruct (stream_with_cancellation _ rest) as [[log2 s2] r2] eqn:Hrun.
        injection H as <- <- <-.
        destruct (IH _ _ _ _ Hrun) as (Hi & Hlog & Hfin). simpl in *.
        split; [exact Hi|]. split.
        -- intros [|p pre] t post E; simpl in E; injection E as <- E.
           ++ simpl. unfold counter_after. simpl. symmetry. exact Hle.
           ++ rewrite (Hlog _ _ _ E). reflexivity.
        -- intros Hr. rewrite (Hfin Hr). reflexivity.
      * injection H as <- <- <-. simpl. split; [reflexivity|]. split.
        -- intros [|p pre] t post E; simpl in E; injection E as <- E.
           ++ simpl. unfold counter_after. simpl. symmetry. exact Hle.
           ++ destruct pre; discriminate.
        -- discriminate.
    + destruct (stream_with_cancellation _ rest) as [[log2 s2] r2] eqn:Hrun.
      injection H as <- <- <-.
      destruct (IH _ _ _ _ Hrun) as (Hi & Hlog & Hfin). simpl in *.
      split; [exact Hi|]. split.
      * intros [|p pre] t post E; simpl in E; injection E as <- E.
        -- simpl. unfold counter_after. simpl. symmetry. exact Hle.
        -- rewrite (Hlog _ _ _ E). reflexivity.
      * intros Hr. rewrite (Hfin Hr). reflexivity.
Qed.

(** The log follows the stream, and a check is the stream's own: a
    fragment whose check returned is yielded, a check that raised ends the
    run with its exception, the fragment unyielded and the counter as it
    stood. *)
Lemma stream_with_cancellation_checks ai_stream : forall self log self' r,
  stream_with_cancellation self ai_stream = (log, self', r) ->
  map fragment log = take (length log) (map fst ai_stream) /\
  (r = Return tt -> length log = length ai_stream) /\
  (forall pre t post, log = pre ++ t :: post ->
     (checked t = true ->
        ai_stream !! length pre
        = Some (fragment t, if yielded t then Return tt else r) /\
        (yielded t = false -> post = [] /\ exists e, r = Raise e)) /\
     (checked t = false -> yielded t = true)) /\
  (forall e, r = Raise e ->
     exists before t,
       log = before ++ [t] /\ checked t = true /\ yielded t = false /\
       chars_since_check self'
       = counter_after (chars_since_check self) before + len (fragment t) /\
       check_interval self <= chars_since_check self').
Proof.
  induction ai_stream as [|[chunk chk] rest IH]; intros self log self' r H.
  - simpl in H. injection H as <- <- <-. simpl.
    split; [reflexivity|]. split; [reflexivity|]. split; [|discriminate].
    intros pre t post E. destruct pre; discriminate.
  - simpl in H.
    destruct (check_interval self <=? chars_since_check self + len chunk) eqn:Hle.
    + destruct chk as [[]|e0].
      * destruct (stream_with_cancellation _ rest) as [[log2 s2] r2] eqn:Hrun.
        injection H as <- <- <-.
        destruct (IH _ _ _ _ Hrun) as (Hpre & Hlen & Hturn & Hraise). simpl in *.
        split; [f_equal; exact Hpre|]. split; [intros Hr; f_equal; auto|]. split.
        -- intros [|p pre] t post E; simpl in E; injection E as <- E.
           ++ simpl. split; [|discriminate].
              intros _. split; [reflexivity|discriminate].
           ++ simpl. apply (Hturn _ _ _ E).
        -- intros e Hr.
           destruct (Hraise e Hr) as (before & t & -> & Hc & Hy & Hcnt & Hge).
           eexists (_ :: before), t. split; [reflexivity|].
           split; [exact Hc|]. split; [exact Hy|]. split; [|exact Hge].
           rewrite Hcnt. reflexivity.
      * injection H as <- <- <-. simpl.
        split; [reflexivity|]. split; [discriminate|]. split.
        -- intros [|p pre] t post E; simpl in E; injection E as <- E.
           ++ simpl. split; [|discriminate]. intros _. split; [reflexivity|].
              intros _. split; [congruence|eauto].
           ++ destruct pre; discriminate.
        -- intros e [= <-].
           exists [], {| fragment := chunk; checked := true; yielded := false |}.
           simpl. split; [reflexivity|]. split; [reflexivity|].
           split; [reflexivity|]. split; [reflexivity|].
           apply Z.leb_le, Hle.
    + destruct (stream_with_cancellation _ rest) as [[log2 s2] r2] eqn:Hrun.
      injection H as <- <- <-.
      destruct (IH _ _ _ _ Hrun) as (Hpre & Hlen & Hturn & Hraise). simpl in *.
      split; [f_equal; exact Hpre|]. split; [intros Hr; f_equal; auto|]. split.
      * intros [|p pre] t post E; simpl in E; injection E as <- E.
        -- simpl. split; [discriminate|reflexivity].
        -- simpl. apply (Hturn _ _ _ E).
      * intros e Hr.
        destruct (Hraise e Hr) as (before & t & -> & Hc & Hy & Hcnt & Hge).
        eexists (_ :: before), t. split; [reflexivity|].
        split; [exact Hc|]. split; [exact Hy|]. split; [|exact Hge].
        rewrite Hcnt. reflexivity.
Qed.

(** [len] counts characters: four of them here, in twelve bytes. *)
Example len_counts_characters :
  len "分析完成" = 4 /\ String.length "分析完成" = 12%nat /\ len "ab" = 2.
Proof. repeat split. Qed.

(** C9, as stated, fails where it says that the counter is reset after
    each check: the check that finds the analysis cancelled raises, and the
    assignment after it is not reached. From [__init__], a fragment of 100
    characters is checked and [chars_since_check] is left at 100. *)
Lemma C9_counterexample :
  let chunk := "0123456789012345678901234567890123456789012345678901234567890123456789012345678901234567890123456789" in
  exists t self',
    stream_with_cancellation init [(chunk, Raise CancelledError)]
    = ([t], self', Raise CancelledError) /\
    checked t = true /\
    chars_since_check self' = 100 /\
    chars_since_check self' <> 0.
Proof.
  eexists _, _. split; [reflexivity|]. split; [reflexivity|].
  split; [reflexivity|]. discriminate.
Qed.

(** C9, amended. [stream_with_cancellation] handles the fragments of the
    stream in order. The cancellation check is awaited for a fragment
    exactly when the characters generated since the previous check (for
    the first check: the attribute's starting value plus the characters
    generated so far), that fragment included, have reached
    [check_interval]; fragments before that are yielded unchecked. A check
    that returns resets [chars_since_check] to zero and the fragment is
    yielded: the count towards the next check starts again from nothing,
    and when the stream ends every fragment has been handled and the
    attribute holds the characters generated since the last check. A check
    that raises ends the generator with its exception: the fragment is not
    yielded, nothing after it is handled, and the counter is not reset but
    keeps its value, which has reached the interval. The interval itself is
    never changed, and [__init__] sets it to 100 with a counter of 0. *)
Theorem C9_check_every_interval_characters
    (self : StreamingAnalyzer) (ai_stream : list (string * result unit))
    (log : list Turn) (self' : StreamingAnalyzer) (r : result unit) :
  stream_with_cancellation self ai_stream = (log, self', r) ->
  map fragment log = take (length log) (map fst ai_stream) /\
  (r = Return tt -> length log = length ai_stream) /\
  (forall mid t post, log = mid ++ t :: post -> Forall unchecked mid ->
     (checked t = true <->
      check_interval self <= chars_since_check self + chars mid + len (fragment t))) /\
  (forall pre c mid t post, log = pre ++ c :: mid ++ t :: post ->
     checked c = true -> Forall unchecked mid ->
     (checked t = true <->
      check_interval self <= chars mid + len (fragment t))) /\
  (forall pre t post, log = pre ++ t :: post ->
     (checked t = true ->
        ai_stream !! length pre
        = Some (fragment t, if yielded t then Return tt else r) /\
        (yielded t = false -> post = [] /\ exists e, r = Raise e)) /\
     (checked t = false -> yielded t = true)) /\
  (r = Return tt -> forall pre c mid, log = pre ++ c :: mid ->
     checked c = true -> Forall unchecked mid ->
     chars_since_check self' = chars mid) /\
  (r = Return tt -> Forall unchecked log ->
     chars_since_check self' = chars_since_check self + chars log) /\
  (forall e, r = Raise e ->
     exists before t,
       log = before ++ [t] /\ checked t = true /\ yielded t = false /\
       chars_since_check self'
       = counter_after (chars_since_check self) before + len (fragment t) /\
       check_interval self <= chars_since_check self') /\
  check_interval self' = check_interval self /\
  check_interval init = 100 /\ chars_since_check init = 0.
Proof.
  intros H. destruct (stream_with_cancellation_log _ _ _ _ _ H) as (Hi & Hlog & Hfin).
  destruct (stream_with_cancellation_checks _ _ _ _ _ H)
    as (Hpre & Hlen & Hturn & Hraise).
  split; [exact Hpre|]. split; [exact Hlen|]. split; [|split].
  - intros mid t post E Hmid.
    rewrite (Hlog _ _ _ E), counter_after_unchecked by assumption.
    split; intros L; [apply Z.leb_le in L|apply Z.leb_le]; lia.
  - intros pre c mid t post E Hc Hmid.
    rewrite (Hlog (pre ++ c :: mid) t post) by (rewrite <- app_assoc; exact E).
    rewrite counter_after_check by assumption.
    split; intros L; [apply Z.leb_le in L|apply Z.leb_le]; lia.
  - split; [exact Hturn|]. split; [|split; [|split; [exact Hraise|auto]]].
    + intros Hr pre c mid -> Hc Hmid. rewrite (Hfin Hr).
      apply counter_after_check; assumption.
    + intros Hr Hall. rewrite (Hfin Hr). apply counter_after_unchecked, Hall.
Qed.

(** Interval 5, with fragments in two scripts: the two characters of the
    first pass unchecked, the second brings the count to 5 and is checked,
    "f" passes unchecked, "ghijkl" brings it to 7 and the check raises,
    leaving the counter at 7. *)
Lemma C9_witness :
  let self := {| check_interval := 5; chars_since_check := 0 |} in
  let ai_stream := [("分析", Return tt); ("cde", Return tt); ("f", Return tt);
                    ("ghijkl", Raise CancelledError); ("mn", Return tt)] in
  let log := [ {| fragment := "分析"; checked := false; yielded := true |};
               {| fragment := "cde"; checked := true; yielded := true |};
               {| fragment := "f"; checked := false; yielded := true |};
               {| fragment := "ghijkl"; checked := true; yielded := false |} ] in
  let self' := {| check_interval := 5; chars_since_check := 7 |} in
  let r : result unit := Raise CancelledError in
  map fragment log = take (length log) (map fst ai_stream) /\
  (r = Return tt -> length log = length ai_stream) /\
  (forall mid t post, log = mid ++ t :: post -> Forall unchecked mid ->
     (checked t = true <->
      check_interval self <= chars_since_check self + chars mid + len (fragment t))) /\
  (forall pre c mid t post, log = pre ++ c :: mid ++ t :: post ->
     checked c = true -> Forall unchecked mid ->
     (checked t = true <->
      check_interval self <= chars mid + len (fragment t))) /\
  (forall pre t post, log = pre ++ t :: post ->
     (checked t = true ->
        ai_stream !! length pre
        = Some (fragment t, if yielded t then Return tt else r) /\
        (yielded t = false -> post = [] /\ exists e, r = Raise e)) /\
     (checked t = false -> yielded t = true)) /\
  (r = Return tt -> forall pre c mid, log = pre ++ c :: mid ->
     checked c = true -> Forall unchecked mid ->
     chars_since_check self' = chars mid) /\
  (r = Return tt -> Forall unchecked log ->
     chars_since_check self' = chars_since_check self + chars log) /\
  (forall e, r = Raise e ->
     exists before t,
       log = before ++ [t] /\ checked t = true /\ yielded t = false /\
       chars_since_check self'
       = counter_after (chars_since_check self) before + len (fragment t) /\
       check_interval self <= chars_since_check self') /\
  check_interval self' = check_interval self /\
  check_interval init = 100 /\ chars_since_check init = 0.
Proof.
  apply (C9_check_every_interval_characters
           {| check_interval := 5; chars_since_check := 0 |}
           [("分析", Return tt); ("cde", Return tt); ("f", Return tt);
            ("ghijkl", Raise CancelledError); ("mn", Return tt)]).
  reflexivity.
Defined.

End StreamingFacts.

(** ** Chunking *)

Section ChunkerFacts.

Import Chunker.

Example range_up : range 0 7 3 = Return [0; 3; 6].
Proof. reflexivity. Qed.

Example range_down : range 5 0 (-2) = Return [5; 3; 1].
Proof. reflexivity. Qed.

Example range_empty : range 0 0 5 = Return [].
Proof. reflexivity. Qed.

Example slice_clamps :
  slice ["a"; "b"; "c"; "d"; "e"]%char (-3) 100 = ["c"; "d"; "e"]%char /\
  slice ["a"; "b"; "c"; "d"; "e"]%char 3 6 = ["d"; "e"]%char /\
  slice ["a"; "b"; "c"; "d"; "e"]%char 4 2 = [].
Proof. repeat split. Qed.

Example split_log_seven :
  split_log ["a"; "b"; "c"; "d"; "e"; "f"; "g"]%char 3
  = Return [["a"; "b"; "c"]; ["d"; "e"; "f"]; ["g"]]%char.
Proof. reflexivity. Qed.

Context {A : Type}.
Implicit Types content : list A.

(** A forward slice of positive width is a [take] of a [drop]. *)
Lemma slice_forward content (i w : Z) :
  0 <= i -> 0 < w ->
  slice content i (i + w) = take (Z.to_nat w) (drop (Z.to_nat i) content).
Proof.
  intros Hi Hw. unfold slice, clamp, len.
  destruct (Z.ltb_spec i 0); [lia|]. destruct (Z.ltb_spec (i + w) 0); [lia|].
  destruct (Z.le_gt_cases i (Z.of_nat (length content))) as [Hin|Hout].
  - rewrite (Z.min_l i) by lia.
    destruct (Z.le_gt_cases (i + w) (Z.of_nat (length content))).
    + rewrite Z.min_l by lia. f_equal. lia.
    + rewrite Z.min_r by lia.
      rewrite !take_ge; [reflexivity| |]; rewrite length_drop; lia.
  - rewrite !Z.min_r by lia. rewrite Z.sub_diag. simpl.
    rewrite (drop_ge content (Z.to_nat i)) by lia. rewrite take_nil. reflexivity.
Qed.

(** For a positive chunk size the comprehension is the list of the
    consecutive windows of that width. *)
Lemma split_log_windows content (chunk_size : Z) :
  0 < chunk_size ->
  split_log content chunk_size =
  Return (map (fun k : nat =>
                 take (Z.to_nat chunk_size) (drop (k * Z.to_nat chunk_size) content))
              (seq 0 (Z.to_nat (ceil_div (len content) chunk_size)))).
Proof.
  intros Hpos. unfold split_log, range, ceil_div.
  destruct (Z.eqb_spec chunk_size 0); [lia|].
  destruct (Z.ltb_spec 0 chunk_size); [|lia].
  simpl. f_equal. unfold seqZ. rewrite Z.sub_0_r.
  replace (Z.to_nat (Z.max 0 ((len content + chunk_size - 1) / chunk_size)))
    with (Z.to_nat ((len content + chunk_size - 1) / chunk_size)) by lia.
  rewrite !map_map. apply map_ext. intros k.
  rewrite slice_forward by lia. do 2 f_equal. lia.
Qed.

Lemma concat_windows (c : nat) content (m : nat) :
  concat (map (fun k : nat => take c (drop (k * c) content)) (seq 0 m))
  = take (m * c) content.
Proof.
  induction m as [|m IH]; [reflexivity|].
  rewrite seq_S, map_app, concat_app, IH. simpl.
  rewrite app_nil_r, take_take_drop. f_equal. lia.
Qed.

Lemma ceil_div_bounds (n c : Z) :
  0 <= n -> 0 < c ->
  0 <= ceil_div n c /\ n <= ceil_div n c * c /\ (ceil_div n c - 1) * c < n.
Proof.
  intros Hn Hc. unfold ceil_div.
  pose proof (Z.mul_div_le (n + c - 1) c Hc).
  pose proof (Z.mul_succ_div_gt (n + c - 1) c Hc).
  assert (0 <= (n + c - 1) / c) by (apply Z.div_pos; lia).
  repeat split; nia.
Qed.

(** C8, as stated, fails. The empty content is no longer than any
    threshold, yet [split_log] gives no chunk at all, not one chunk equal
    to the content; with chunk size 0 [range] raises; with a negative chunk
    size there is no chunk and the content is lost. *)
Lemma C8_counterexample :
  len (@nil ascii) <= default_chunk_size /\
  split_log (@nil ascii) default_chunk_size = Return [] /\
  split_log (@nil ascii) default_chunk_size <> Return [ [] ] /\
  split_log ["a"; "b"; "c"]%char 0
    = Raise (ValueError "range() arg 3 must not be zero") /\
  split_log ["a"; "b"; "c"]%char (-2) = Return [].
Proof.
  split; [unfold len, default_chunk_size; simpl; lia|].
  split; [reflexivity|]. split; [discriminate|]. split; reflexivity.
Qed.

(** C8, amended. For every content and every positive chunk size,
    [split_log] returns, and it is a function of its two arguments alone.
    It returns [ceil(len/chunk_size)] chunks; chunk number [k] (from 0) is
    the slice of the content from [k * chunk_size] of width [chunk_size],
    cut at the end of the content, and it is not empty; the chunks put
    together are the content. A content that is not empty and no longer
    than the chunk size gives one chunk, the content itself (the empty
    content gives no chunk). 500,000 characters with chunk size 200,000
    give three chunks of 200,000, 200,000 and 100,000 characters. *)
Theorem C8_split_log_chunks content (chunk_size : Z) :
  0 < chunk_size ->
  exists chunks,
    split_log content chunk_size = Return chunks /\
    (forall content' chunk_size', content' = content -> chunk_size' = chunk_size ->
       split_log content' chunk_size' = Return chunks) /\
    len chunks = ceil_div (len content) chunk_size /\
    concat chunks = content /\
    (forall (k : nat) chunk, chunks !! k = Some chunk ->
       chunk = slice content (Z.of_nat k * chunk_size)
                 (Z.of_nat k * chunk_size + chunk_size) /\
       len chunk = Z.min chunk_size (len content - Z.of_nat k * chunk_size) /\
       0 < len chunk) /\
    (content <> [] -> len content <= chunk_size -> chunks = [content]) /\
    (content = [] -> chunks = []) /\
    (len content = 500000 -> chunk_size = 200000 ->
       map len chunks = [200000; 200000; 100000]).
Proof.
  intros Hpos. pose proof (split_log_windows content chunk_size Hpos) as Hsplit.
  destruct (ceil_div_bounds (len content) chunk_size) as (Hm0 & Hup & Hlow);
    [unfold len; lia|exact Hpos|].
  set (c := Z.to_nat chunk_size) in *.
  set (m := Z.to_nat (ceil_div (len content) chunk_size)) in *.
  set (chunks := map (fun k : nat => take c (drop (k * c) content)) (seq 0 m)) in *.
  assert (Hlen : len chunks = ceil_div (len content) chunk_size).
  { unfold len at 1, chunks. rewrite length_map, length_seq. unfold m. lia. }
  assert (Hk : forall (k : nat) chunk, chunks !! k = Some chunk ->
             chunk = take c (drop (k * c) content) /\ (k < m)%nat).
  { intros k chunk Hlook. unfold chunks in Hlook.
    change (map ?f ?l) with (f <$> l) in Hlook.
    rewrite list_lookup_fmap in Hlook.
    destruct (seq 0 m !! k) as [k'|] eqn:Hseq; [|discriminate].
    apply lookup_seq in Hseq as [-> Hlt]. simpl in Hlook.
    injection Hlook as <-. auto. }
  assert (Hchunk : forall (k : nat) chunk, chunks !! k = Some chunk ->
       chunk = slice content (Z.of_nat k * chunk_size)
                 (Z.of_nat k * chunk_size + chunk_size) /\
       len chunk = Z.min chunk_size (len content - Z.of_nat k * chunk_size) /\
       0 < len chunk).
  { intros k chunk Hlook. destruct (Hk k chunk Hlook) as [-> Hlt].
    assert (Hkc : Z.of_nat k * chunk_size < len content) by (unfold m in Hlt; nia).
    split.
    - rewrite slice_forward by lia. fold c. do 2 f_equal. unfold c. lia.
    - unfold len in *. rewrite length_take, length_drop. unfold c. split; nia. }
  assert (Hcat : concat chunks = content).
  { unfold chunks. rewrite concat_windows. apply take_ge.
    unfold m, c. rewrite <- Z2Nat.inj_mul by lia. unfold len in Hup |- *. lia. }
  exists chunks. split; [exact Hsplit|]. split; [intros ? ? -> ->; exact Hsplit|].
  split; [exact Hlen|]. split; [exact Hcat|]. split; [exact Hchunk|].
  split; [|split].
  - intros Hne Hle.
    assert (Hone : ceil_div (len content) chunk_size = 1).
    { assert (0 < len content) by (unfold len; destruct content; [congruence|simpl; lia]).
      nia. }
    rewrite Hone in Hlen. unfold len in Hlen.
    destruct chunks as [|a [|b rest]] eqn:E; simpl in Hlen; try lia.
    simpl in Hcat. rewrite app_nil_r in Hcat. congruence.
  - intros ->.
    assert (Hzero : ceil_div (len (@nil A)) chunk_size = 0).
    { unfold len in Hlow, Hm0 |- *. simpl in Hlow, Hm0 |- *. nia. }
    unfold chunks, m. rewrite Hzero. reflexivity.
  - intros Hn ->. rewrite Hn in Hlen.
    change (ceil_div 500000 200000) with 3 in Hlen. unfold len in Hlen.
    destruct chunks as [|a [|b [|d [|e rest]]]] eqn:E; simpl in Hlen; try lia.
    destruct (Hchunk 0%nat a eq_refl) as (_ & Ha & _).
    destruct (Hchunk 1%nat b eq_refl) as (_ & Hb & _).
    destruct (Hchunk 2%nat d eq_refl) as (_ & Hd & _).
    cbn [map]. rewrite Ha, Hb, Hd, Hn. reflexivity.
Qed.

End ChunkerFacts.

(** Seven characters in chunks of three. *)
Lemma C8_witness :
  exists chunks,
    Chunker.split_log ["a"; "b"; "c"; "d"; "e"; "f"; "g"]%char 3 = Return chunks /\
    (forall content' chunk_size',
       content' = ["a"; "b"; "c"; "d"; "e"; "f"; "g"]%char -> chunk_size' = 3 ->
       Chunker.split_log content' chunk_size' = Return chunks) /\
    Chunker.len chunks
      = Chunker.ceil_div (Chunker.len ["a"; "b"; "c"; "d"; "e"; "f"; "g"]%char) 3 /\
    concat chunks = ["a"; "b"; "c"; "d"; "e"; "f"; "g"]%char /\
    (forall (k : nat) chunk, chunks !! k = Some chunk ->
       chunk = Chunker.slice ["a"; "b"; "c"; "d"; "e"; "f"; "g"]%char
                 (Z.of_nat k * 3) (Z.of_nat k * 3 + 3) /\
       Chunker.len chunk
         = Z.min 3 (Chunker.len ["a"; "b"; "c"; "d"; "e"; "f"; "g"]%char
                    - Z.of_nat k * 3) /\
       0 < Chunker.len chunk) /\
    (["a"; "b"; "c"; "d"; "e"; "f"; "g"]%char <> [] ->
     Chunker.len ["a"; "b"; "c"; "d"; "e"; "f"; "g"]%char <= 3 ->
     chunks = [["a"; "b"; "c"; "d"; "e"; "f"; "g"]%char]) /\
    (["a"; "b"; "c"; "d"; "e"; "f"; "g"]%char = [] -> chunks = []) /\
    (Chunker.len ["a"; "b"; "c"; "d"; "e"; "f"; "g"]%char = 500000 -> 3 = 200000 ->
       map Chunker.len chunks = [200000; 200000; 100000]).
Proof.
  apply (C8_split_log_chunks ["a"; "b"; "c"; "d"; "e"; "f"; "g"]%char 3).
  reflexivity.
Defined.

(** ** The event stream *)

Section EndpointFacts.

Import Engine Endpoint.

(** A run with two chunks, the status carrying usage figures only after
    the second, and one with a mode the enumeration does not have. *)
Example generate_two_chunks :
  let engine := {| Engine.analyze_with_cancellation := fun _ _ _ _ _ =>
                     [Return "Main thread "; Return "is blocked"];
                   get_status := fun k =>
                     if Nat.eqb k 0 then Return None
                     else Return (Some {| input_tokens := Some 120;
                                          output_tokens := None |}) |} in
  let env := {| USE_MOCK_ANALYSIS := Some "False";
                ANALYSIS_ENGINE := Some engine;
                uuid4 := "id-1";
                analyze_with_cancellation_mock_impl :=
                  fun _ _ _ _ => Raise (RuntimeError "no mock");
                ModelProvider_values := ["anthropic"; "openai"] |} in
  analyze_with_cancellation env
    {| content := Some "ANR in com.example"; log_type := None;
       mode := None; provider := None |}
  = Return (EventStream
      [Start "id-1"; Content "Main thread "; Content "is blocked";
       Progress 20 2 1 120 0; Complete] Returned) /\
  analyze_with_cancellation env
    {| content := Some "ANR in com.example"; log_type := None;
       mode := Some "fast"; provider := None |}
  = Return (EventStream
      [Start "id-1"; Error "'fast' is not a valid AnalysisMode"] Returned).
Proof. split; reflexivity. Qed.

(** [asyncio.CancelledError] is not an [Exception]: when it is what leaves
    the engine's stream, neither handler takes it, and the stream ends
    without a closing event. *)
Example generate_lets_cancelled_error_through :
  let engine := {| Engine.analyze_with_cancellation := fun _ _ _ _ _ =>
                     [Return "Main thread "; Raise CancelledError];
                   get_status := fun _ => Return None |} in
  let env := {| USE_MOCK_ANALYSIS := None;
                ANALYSIS_ENGINE := Some engine;
                uuid4 := "id-1";
                analyze_with_cancellation_mock_impl :=
                  fun _ _ _ _ => Raise (RuntimeError "no mock");
                ModelProvider_values := ["anthropic"; "openai"] |} in
  generate env "ANR in com.example" "anr" "quick" "openai"
  = ([Start "id-1"; Content "Main thread "], Uncaught CancelledError).
Proof. reflexivity. Qed.

Lemma count_content_app evs1 evs2 :
  count_content (evs1 ++ evs2) = count_content evs1 + count_content evs2.
Proof. unfold count_content. rewrite filter_app, length_app. lia. Qed.

Lemma count_content_cons ev evs :
  count_content (ev :: evs)
  = (if is_content ev then 1 else 0) + count_content evs.
Proof.
  unfold count_content. rewrite filter_cons.
  destruct (is_content ev); case_decide; simpl length; try congruence; lia.
Qed.

Lemma count_content_nonneg evs : 0 <= count_content evs.
Proof. unfold count_content. lia. Qed.

(** Inside the loop only [Content] and [Progress] events are yielded. *)
Lemma consume_middle engine async_gen : forall chunk_count evs e,
  consume engine async_gen chunk_count = (evs, e) ->
  Forall (fun ev => is_terminal ev = false /\ is_start ev = false) evs.
Proof.
  induction async_gen as [|[chunk|x] rest IH]; intros cc evs e H; simpl in H.
  - injection H as <- <-. constructor.
  - destruct (get_status engine (Z.to_nat cc)) as [status|x].
    + destruct (consume engine rest (cc + 1)) as [more e'] eqn:Hrest.
      injection H as <- <-. constructor; [auto|].
      apply Forall_app. split; [|eapply IH, Hrest].
      destruct status; repeat constructor.
    + destruct x; injection H as <- <-; repeat constructor.
  - destruct x; injection H as <- <-; constructor.
Qed.

(** Every [Progress] event of the loop reports the chunk count reached. *)
Lemma consume_progress engine async_gen : forall chunk_count evs e,
  consume engine async_gen chunk_count = (evs, e) ->
  forall pre p c t i o post, evs = pre ++ Progress p c t i o :: post ->
    p = Z.min ((chunk_count + count_content pre) * 10) 90 /\
    c = chunk_count + count_content pre /\ t = 1.
Proof.
  induction async_gen as [|[chunk|x] rest IH]; intros cc evs e H; simpl in H.
  - injection H as <- <-. intros [|] *; discriminate.
  - destruct (get_status engine (Z.to_nat cc)) as [status|x].
    + destruct (consume engine rest (cc + 1)) as [more e'] eqn:Hrest.
      injection H as <- <-. intros pre p c t i o post E.
      destruct pre as [|ev pre]; [discriminate|].
      simpl in E. injection E as <- E. rewrite count_content_cons. simpl.
      destruct status as [api_usage|]; simpl in E.
      * destruct pre as [|ev pre]; simpl in E.
        -- injection E as <- <- <- <- <- <-. unfold count_content. simpl.
           repeat split; first [lia | f_equal; lia].
        -- injection E as <- E. rewrite count_content_cons. simpl.
           destruct (IH _ _ _ Hrest _ _ _ _ _ _ _ E) as (-> & -> & ->).
           repeat split; first [lia | f_equal; lia].
      * destruct (IH _ _ _ Hrest _ _ _ _ _ _ _ E) as (-> & -> & ->).
        repeat split; first [lia | f_equal; lia].
    + assert (evs = [Content chunk]) as -> by (destruct x; congruence).
      intros [|? [|]] *; discriminate.
  - assert (evs = []) as -> by (destruct x; congruence).
    intros [|] *; discriminate.
Qed.

(** The shape of what [generate] yields: the start event, then what the
    loop yielded (nothing when the loop was not reached), then at most one
    closing event. *)
Lemma generate_shape env content log_type mode provider :
  exists evs tail,
    fst (generate env content log_type mode provider)
      = Start (uuid4 env) :: evs ++ tail /\
    (evs = [] \/ exists engine async_gen e, consume engine async_gen 0 = (evs, e)) /\
    (tail = [] \/ tail = [Complete] \/ tail = [Cancelled] \/ exists msg, tail = [Error msg]).
Proof.
  unfold generate, generate_body.
  destruct (ANALYSIS_ENGINE env) as [engine|].
  - destruct (AnalysisMode_of mode) as [am|x].
    + destruct (if String.eqb provider "" then _ else _) as [mp|x].
      * destruct (consume engine _ 0) as [evs [x|]] eqn:Hloop.
        -- exists evs. destruct x; simpl;
             try (exists []; rewrite app_nil_r; split; [reflexivity|]; split; eauto 6);
             try (eexists [_]; split; [reflexivity|]; split; eauto 8).
        -- exists evs, [Complete]. simpl. split; [reflexivity|]. split; eauto 6.
      * exists []. destruct x; simpl; eauto 10.
    + exists []. destruct x; simpl; eauto 10.
  - destruct (analyze_with_cancellation_mock_impl _ _ _ _ _) as [resp|x].
    + exists [], []. simpl. auto.
    + exists []. destruct x; simpl; eauto 10.
Qed.

(** The loop on a stream that raises after [chunks], while the status
    calls return: the exception leaves the loop, unless it is the
    [StopAsyncIteration] the loop's own handler takes. *)
Lemma consume_raises engine e later chunks : forall chunk_count,
  e <> StopAsyncIteration ->
  0 <= chunk_count ->
  (forall k, (k < length chunks)%nat ->
     exists status, get_status engine (Z.to_nat chunk_count + k) = Return status) ->
  exists evs,
    consume engine (map Return chunks ++ Raise e :: later) chunk_count
    = (evs, Some e) /\
    contents evs = chunks.
Proof.
  induction chunks as [|chunk chunks IH]; intros cc He Hcc Hst; simpl.
  - exists []. destruct e; try contradiction; auto.
  - destruct (Hst 0%nat) as [status Hs]; [simpl; lia|].
    rewrite Nat.add_0_r in Hs. rewrite Hs.
    destruct (IH (cc + 1)) as (more & Hmore & Hcont); [exact He|lia| |].
    { intros k Hk. destruct (Hst (S k)) as [s' Hs']; [simpl; lia|].
      exists s'. rewrite <- Hs'. f_equal. lia. }
    rewrite Hmore. eexists. split; [reflexivity|].
    unfold contents in *. simpl. rewrite omap_app, Hcont.
    destruct status; reflexivity.
Qed.

(** With no engine configured and a mock view that returns its response,
    the generator yields the start event and returns. *)
Lemma generate_without_engine env content log_type mode provider resp :
  ANALYSIS_ENGINE env = None ->
  analyze_with_cancellation_mock_impl env content log_type mode provider = Return resp ->
  generate env content log_type mode provider = ([Start (uuid4 env)], Returned).
Proof.
  intros Hengine Hmock. unfold generate, generate_body.
  rewrite Hengine, Hmock. reflexivity.
Qed.

(** With an engine configured, a generator that returns has yielded the
    start event first and one terminal event last, with only [Content] and
    [Progress] events between them; and the only exceptions it lets through
    are those that do not derive from [Exception]. *)
Theorem generate_with_engine_well_formed
    (env : Env) (engine : CancellableAiAnalysisEngine) (content log_type mode provider : string) :
  ANALYSIS_ENGINE env = Some engine ->
  (snd (generate env content log_type mode provider) = Returned ->
   exists mids closing,
     fst (generate env content log_type mode provider)
       = Start (uuid4 env) :: mids ++ [closing] /\
     is_terminal closing = true /\
     Forall (fun ev => is_terminal ev = false /\ is_start ev = false) mids) /\
  (forall e, snd (generate env content log_type mode provider) = Uncaught e ->
     is_Exception e = false).
Proof.
  intros Hengine. unfold generate, generate_body. rewrite Hengine.
  assert (Hraise : forall evs x,
    Forall (fun ev => is_terminal ev = false /\ is_start ev = false) evs ->
    let out := match x with
               | CancellationException =>
                   (Start (uuid4 env) :: evs ++ [Cancelled], Returned)
               | _ => if is_Exception x
                      then (Start (uuid4 env) :: evs ++ [Error (str x)], Returned)
                      else (Start (uuid4 env) :: evs, Uncaught x)
               end in
    (snd out = Returned ->
     exists mids closing, fst out = Start (uuid4 env) :: mids ++ [closing] /\
       is_terminal closing = true /\
       Forall (fun ev => is_terminal ev = false /\ is_start ev = false) mids) /\
    (forall e, snd out = Uncaught e -> is_Exception e = false)).
  { intros evs x Hevs. destruct x; simpl; split;
      try discriminate; try (intros _; eauto 6);
      intros e E; try discriminate. injection E as <-. reflexivity. }
  destruct (AnalysisMode_of mode) as [am|x].
  - destruct (if String.eqb provider "" then _ else _) as [mp|x].
    + destruct (consume engine _ 0) as [evs [x|]] eqn:Hloop.
      * pose proof (Hraise evs x (consume_middle _ _ _ _ _ Hloop)) as Hx.
        destruct x; exact Hx.
      * simpl. split; [|discriminate]. intros _. exists evs, Complete.
        split; [reflexivity|]. split; [reflexivity|].
        eapply consume_middle, Hloop.
    + pose proof (Hraise [] x (Forall_nil_2 _)) as Hx. destruct x; exact Hx.
  - pose proof (Hraise [] x (Forall_nil_2 _)) as Hx. destruct x; exact Hx.
Qed.

Lemma generate_with_engine_well_formed_witness :
  let engine := {| Engine.analyze_with_cancellation := fun _ _ _ _ _ =>
                     [Return "Main thread "; Raise (RuntimeError "overloaded")];
                   get_status := fun _ => Return None |} in
  let env := {| USE_MOCK_ANALYSIS := None;
                ANALYSIS_ENGINE := Some engine;
                uuid4 := "id-1";
                analyze_with_cancellation_mock_impl :=
                  fun _ _ _ _ => Raise (RuntimeError "no mock");
                ModelProvider_values := ["anthropic"; "openai"] |} in
  (snd (generate env "ANR in com.example" "anr" "quick" "") = Returned ->
   exists mids closing,
     fst (generate env "ANR in com.example" "anr" "quick" "")
       = Start (uuid4 env) :: mids ++ [closing] /\
     is_terminal closing = true /\
     Forall (fun ev => is_terminal ev = false /\ is_start ev = false) mids) /\
  (forall e, snd (generate env "ANR in com.example" "anr" "quick" "") = Uncaught e ->
     is_Exception e = false).
Proof.
  intros engine env.
  apply (generate_with_engine_well_formed env engine
           "ANR in com.example" "anr" "quick" "").
  reflexivity.
Defined.

(** When the engine's stream raises [CancellationException] before it
    delivers any chunk, the generator yields the start event and
    [Cancelled] and nothing else. *)
Theorem generate_cancelled_before_first_chunk
    (env : Env) (engine : CancellableAiAnalysisEngine) (content log_type mode provider : string)
    (analysis_mode : AnalysisMode) (later : list (result string)) :
  ANALYSIS_ENGINE env = Some engine ->
  AnalysisMode_of mode = Return analysis_mode ->
  provider = "" \/ provider ∈ ModelProvider_values env ->
  Engine.analyze_with_cancellation engine content log_type analysis_mode
    (if String.eqb provider "" then None else Some provider) (uuid4 env)
    = Raise CancellationException :: later ->
  generate env content log_type mode provider
    = ([Start (uuid4 env); Cancelled], Returned).
Proof.
  intros Hengine Hmode Hprov Hstream.
  unfold generate, generate_body. rewrite Hengine, Hmode.
  destruct (String.eqb provider "") eqn:Hempty.
  - rewrite Hstream. reflexivity.
  - destruct Hprov as [->|Hin]; [discriminate|].
    unfold ModelProvider_of. rewrite bool_decide_eq_true_2 by exact Hin.
    simpl. rewrite Hstream. reflexivity.
Qed.

Lemma generate_cancelled_before_first_chunk_witness :
  let engine := {| Engine.analyze_with_cancellation := fun _ _ _ _ _ =>
                     [Raise CancellationException; Return "Main thread "];
                   get_status := fun _ => Return None |} in
  let env := {| USE_MOCK_ANALYSIS := None;
                ANALYSIS_ENGINE := Some engine;
                uuid4 := "id-1";
                analyze_with_cancellation_mock_impl :=
                  fun _ _ _ _ => Raise (RuntimeError "no mock");
                ModelProvider_values := ["anthropic"; "openai"] |} in
  generate env "ANR in com.example" "anr" "max_token" "anthropic"
    = ([Start (uuid4 env); Cancelled], Returned).
Proof.
  intros engine env.
  apply (generate_cancelled_before_first_chunk env engine
           "ANR in com.example" "anr" "max_token" "anthropic" MAX_TOKEN
           [Return "Main thread "]).
  - reflexivity.
  - reflexivity.
  - right. repeat constructor.
  - reflexivity.
Defined.

(** C1, at a failing input. No engine is configured and the mock view
    works: the stream the endpoint answers with is the start event alone.
    Its last event is [Start], not a terminal event, whatever the mock
    view's own response holds. *)
Theorem C1_fallback_stream_has_no_terminal_event :
  let mock_response :=
    EventStream [Start "mock"; Content "mock analysis"; Complete] Returned in
  let env := {| USE_MOCK_ANALYSIS := None;
                ANALYSIS_ENGINE := None;
                uuid4 := "id-1";
                analyze_with_cancellation_mock_impl :=
                  fun _ _ _ _ => Return mock_response;
                ModelProvider_values := ["anthropic"; "openai"] |} in
  let data := {| content := Some "ANR in com.example"; log_type := None;
                 mode := None; provider := None |} in
  analyze_with_cancellation env data
    = Return (EventStream [Start "id-1"] Returned) /\
  last [Start "id-1"] = Some (Start "id-1") /\
  is_terminal (Start "id-1") = false /\
  filter (fun ev => is_terminal ev = true) [Start "id-1"] = [].
Proof. repeat split. Qed.

(** The handler for [CancellationException]: when that is what the
    engine's stream raises after some chunks (the mode and provider being
    valid and the status calls returning), the generator yields the start
    event, the events of those chunks and then [Cancelled], and returns. *)
Lemma generate_reports_cancellation_exception
    (env : Env) (engine : CancellableAiAnalysisEngine) (content log_type mode provider : string)
    (analysis_mode : AnalysisMode) (chunks : list string)
    (later : list (result string)) :
  ANALYSIS_ENGINE env = Some engine ->
  AnalysisMode_of mode = Return analysis_mode ->
  provider = "" \/ provider ∈ ModelProvider_values env ->
  Engine.analyze_with_cancellation engine content log_type analysis_mode
    (if String.eqb provider "" then None else Some provider) (uuid4 env)
    = map Return chunks ++ Raise CancellationException :: later ->
  (forall k, (k < length chunks)%nat ->
     exists status, get_status engine k = Return status) ->
  exists mids,
    generate env content log_type mode provider
      = (Start (uuid4 env) :: mids ++ [Cancelled], Returned) /\
    last (fst (generate env content log_type mode provider)) = Some Cancelled /\
    contents mids = chunks /\
    Forall (fun ev => is_terminal ev = false /\ is_start ev = false) mids.
Proof.
  intros Hengine Hmode Hprov Hstream Hstatus.
  destruct (consume_raises engine CancellationException later chunks 0)
    as (mids & Hloop & Hcont); [discriminate|lia|exact Hstatus|].
  assert (Hgen : generate env content log_type mode provider
                 = (Start (uuid4 env) :: mids ++ [Cancelled], Returned)).
  { unfold generate, generate_body. rewrite Hengine, Hmode.
    destruct (String.eqb provider "") eqn:Hempty.
    - rewrite Hstream, Hloop. reflexivity.
    - destruct Hprov as [->|Hin]; [discriminate|].
      unfold ModelProvider_of. rewrite bool_decide_eq_true_2 by exact Hin.
      simpl. rewrite Hstream, Hloop. reflexivity. }
  exists mids. split; [exact Hgen|]. rewrite Hgen. simpl fst.
  split; [|split; [exact Hcont|eapply consume_middle, Hloop]].
  change (Start (uuid4 env) :: mids ++ [Cancelled])
    with ((Start (uuid4 env) :: mids) ++ [Cancelled]).
  apply last_snoc.
Qed.

(** C7. A request whose content is missing or empty is answered at once
    with the 400 JSON error "Content is required": the answer is the same
    whatever the environment holds (engine, mock view, mock switch), so
    nothing of it is consulted, no generator is made and the response
    carries no event, in particular no start event. *)
Theorem C7_empty_content_rejected (env : Env) (data : RequestData) :
  default "" (content data) = "" ->
  analyze_with_cancellation env data
    = Return (Json 400 "error" "Content is required") /\
  forall resp, analyze_with_cancellation env data = Return resp ->
    events_of resp = [].
Proof.
  intros Hempty.
  assert (H : analyze_with_cancellation env data
              = Return (Json 400 "error" "Content is required")).
  { unfold analyze_with_cancellation. rewrite Hempty. reflexivity. }
  split; [exact H|]. intros resp Hresp. rewrite H in Hresp.
  injection Hresp as <-. reflexivity.
Qed.

Lemma C7_witness :
  let engine := {| Engine.analyze_with_cancellation := fun _ _ _ _ _ => [Return "x"];
                   get_status := fun _ => Return None |} in
  let env := {| USE_MOCK_ANALYSIS := Some "TRUE";
                ANALYSIS_ENGINE := Some engine;
                uuid4 := "id-1";
                analyze_with_cancellation_mock_impl :=
                  fun _ _ _ _ => Return (EventStream [Start "mock"; Complete] Returned);
                ModelProvider_values := ["anthropic"; "openai"] |} in
  let data := {| content := Some ""; log_type := Some "anr";
                 mode := Some "quick"; provider := None |} in
  analyze_with_cancellation env data
    = Return (Json 400 "error" "Content is required") /\
  forall resp, analyze_with_cancellation env data = Return resp ->
    events_of resp = [].
Proof.
  intros engine env data.
  apply (C7_empty_content_rejected env data). reflexivity.
Defined.

(** C10. Every [Progress] event the generator yields reports
    [min(10 * n, 90)] as its percentage, where [n] is the number of
    [Content] events yielded before it, [n] as its current chunk and 1 as
    its total of chunks. So the percentage never exceeds 90 and never goes
    down from one [Progress] event to a later one. *)
Theorem C10_progress_percentage
    (env : Env) (content log_type mode provider : string)
    (pre post : list Event) (p c t i o : Z) :
  fst (generate env content log_type mode provider)
    = pre ++ Progress p c t i o :: post ->
  p = Z.min (10 * count_content pre) 90 /\
  t = 1 /\
  c = count_content pre /\
  p <= 90 /\
  (forall pre1 mid p1 c1 t1 i1 o1,
     pre = pre1 ++ Progress p1 c1 t1 i1 o1 :: mid -> p1 <= p).
Proof.
  assert (Hone : forall pre post p c t i o,
    fst (generate env content log_type mode provider)
      = pre ++ Progress p c t i o :: post ->
    p = Z.min (10 * count_content pre) 90 /\ t = 1 /\ c = count_content pre).
  { clear. intros pre post p c t i o E.
    destruct (generate_shape env content log_type mode provider)
      as (evs & tail & Hshape & Hevs & Htail).
    rewrite Hshape in E. destruct pre as [|ev pre]; [discriminate|].
    simpl in E. injection E as <- E. rewrite count_content_cons. simpl.
    assert (Hin : exists post', evs = pre ++ Progress p c t i o :: post').
    { assert (Hel : Progress p c t i o ∈ tail -> False).
      { destruct Htail as [->|[->|[->|[msg ->]]]]; intros Hel;
          repeat (apply elem_of_cons in Hel as [Hel|Hel]; [discriminate|]);
          apply elem_of_nil in Hel; exact Hel. }
      clear Hshape Hevs Htail. revert pre E.
      induction evs as [|x evs IHevs]; intros pre E; simpl in E.
      - exfalso. apply Hel. rewrite E. apply elem_of_app. right. left.
      - destruct pre as [|y pre]; simpl in E.
        + injection E as -> E. exists evs. reflexivity.
        + injection E as -> E. destruct (IHevs pre E) as [post' ->].
          exists post'. reflexivity. }
    destruct Hin as [post' Hin].
    destruct Hevs as [->|(engine & async_gen & e & Hloop)].
    - destruct pre; discriminate.
    - destruct (consume_progress _ _ _ _ _ Hloop _ _ _ _ _ _ _ Hin) as (-> & -> & ->).
      repeat split; first [lia | f_equal; lia]. }
  intros E. destruct (Hone _ _ _ _ _ _ _ E) as (Hp & Ht & Hc).
  split; [exact Hp|]. split; [exact Ht|]. split; [exact Hc|]. split; [lia|].
  intros pre1 mid p1 c1 t1 i1 o1 Hpre. subst pre.
  rewrite <- app_assoc in E. simpl in E.
  destruct (Hone _ _ _ _ _ _ _ E) as (Hp1 & _ & _).
  rewrite count_content_app, count_content_cons in Hp. simpl in Hp.
  pose proof (count_content_nonneg mid). lia.
Qed.

(** Three chunks; the status has usage figures each time. The second
    [Progress] event comes after two [Content] events and reports 20. *)
Lemma C10_witness :
  let engine := {| Engine.analyze_with_cancellation := fun _ _ _ _ _ =>
                     [Return "a"; Return "b"; Return "c"];
                   get_status := fun _ =>
                     Return (Some {| input_tokens := Some 120;
                                     output_tokens := Some 7 |}) |} in
  let env := {| USE_MOCK_ANALYSIS := None;
                ANALYSIS_ENGINE := Some engine;
                uuid4 := "id-1";
                analyze_with_cancellation_mock_impl :=
                  fun _ _ _ _ => Raise (RuntimeError "no mock");
                ModelProvider_values := ["anthropic"; "openai"] |} in
  let pre := [Start "id-1"; Content "a"; Progress 10 1 1 120 7; Content "b"] in
  20 = Z.min (10 * count_content pre) 90 /\
  1 = 1 /\
  2 = count_content pre /\
  20 <= 90 /\
  (forall pre1 mid p1 c1 t1 i1 o1,
     pre = pre1 ++ Progress p1 c1 t1 i1 o1 :: mid -> p1 <= 20).
Proof.
  intros engine env pre.
  apply (C10_progress_percentage env "ANR in com.example" "anr" "quick" "openai"
           pre [Content "c"; Progress 30 3 1 120 7; Complete] 20 2 1 120 7).
  reflexivity.
Defined.

End EndpointFacts.

(** ** From the cancel request to the event stream *)

Section LifecycleFacts.

Import Cancellation Analyzer Engine Endpoint.




End LifecycleFacts.

(** ** The coordinator of the specification and the registry *)

Section CoordinatorFacts.

Import Cancellation Coordinator.





(** The second scenario of §8: three chunks, the token checked after every
    second fragment; a cancel request arrives while the second chunk is
    streaming. The sequence ends with [Cancelled] after the content emitted
    up to the next check, nothing of the third chunk appears, and the id is
    no longer registered. *)
Example coordinate_cancelled_in_second_chunk :
  let policy := {| check_every := 2; progress_every := 1000;
                   budget := None; timeout := 600 |} in
  let st := snd (create_token "id-1" 0 init) in
  let chunk1 := {| boundary_clock := 1; opening := [];
                   fragments := [([], Fragment "Main " 1 2);
                                 ([], Fragment "thread " 1 3)] |} in
  let chunk2 := {| boundary_clock := 4; opening := [];
                   fragments := [([CallCancel "id-1" 5], Fragment "is " 1 6);
                                 ([], Fragment "blocked" 1 7);
                                 ([], Fragment " on a lock" 1 8)] |} in
  let chunk3 := {| boundary_clock := 9; opening := [];
                   fragments := [([], Fragment "held by" 1 10)] |} in
  coordinate policy 0 "id-1" 0%nat [chunk1; chunk2; chunk3] st
  = (inr [Start "id-1"; Content "Main "; Content "thread "; Progress 1 3;
          Content "is "; Content "blocked"; Cancelled],
     {| store := [{| analysis_id := "id-1"; is_cancelled := true;
                     created_at := 0; cancelled_at := Some 5 |}];
        _tokens := delete "id-1" {[ "id-1" := 0%nat ]} |}).
Proof. reflexivity. Qed.

(** The third scenario of §8 and a completed analysis: the provider fails
    on chunk 1 of 2; and two chunks that succeed. *)
Example coordinate_failed_and_completed :
  let policy := {| check_every := 2; progress_every := 1000;
                   budget := None; timeout := 600 |} in
  let st := snd (create_token "id-1" 0 init) in
  let failing := {| boundary_clock := 1; opening := [];
                    fragments := [([], Fragment "Main " 1 2);
                                  ([], Fails "connection reset")] |} in
  let chunk := {| boundary_clock := 3; opening := [];
                  fragments := [([], Fragment "thread" 1 4)] |} in
  fst (coordinate policy 0 "id-1" 0%nat [failing; chunk] st)
  = inr [Start "id-1"; Content "Main ";
         Error ProviderFailure "connection reset"] /\
  _tokens (snd (coordinate policy 0 "id-1" 0%nat [failing; chunk] st)) !! "id-1"
  = None /\
  fst (coordinate policy 0 "id-1" 0%nat [chunk; chunk] st)
  = inr [Start "id-1"; Content "thread"; Progress 1 2;
         Content "thread"; Progress 2 2; Complete 2] /\
  _tokens (snd (coordinate policy 0 "id-1" 0%nat [chunk; chunk] st)) !! "id-1"
  = None.
Proof. repeat split. Qed.


End CoordinatorFacts.

(** ** Retrying a rate-limited request *)

Section RetryFacts.

Import Retry.

Example request_with_retry_third_time :
  let requests_get := fun (_ : string) (k : nat) =>
    match k with
    | 0%nat => Return {| status_code := 429; Retry_After := Some (Return 2) |}
    | 1%nat => Return {| status_code := 429; Retry_After := None |}
    | _ => Return {| status_code := 200; Retry_After := None |}
    end in
  request_with_retry requests_get "http://localhost:5000/api/health" 3
  = {| returned := Return (Some {| status_code := 200; Retry_After := None |});
       requests := 3; slept := [2; 60] |}.
Proof. reflexivity. Qed.

Lemma sleep_max_value : sleep_max = 9223372036.
Proof. reflexivity. Qed.

(** A sleep that returns was asked for a length the clock can hold. *)
Lemma time_sleep_returns secs :
  time_sleep secs = Return tt <-> 0 <= secs <= sleep_max.
Proof.
  unfold time_sleep. rewrite sleep_max_value.
  repeat match goal with
         | |- context [?a <? ?b] => destruct (Z.ltb_spec a b)
         end; simpl; split; intros; first [discriminate | lia | reflexivity].
Qed.

Example time_sleep_overflow :
  time_sleep (10 ^ 20)
  = Raise (OverflowError "timestamp too large to convert to C _PyTime_t").
Proof. reflexivity. Qed.

Lemma attempts_safe requests_get url n : forall i,
  let out := attempts requests_get url i n in
  (requests out <= n)%nat /\
  (length (slept out) <= requests out)%nat /\
  Forall (fun s => 0 <= s) (slept out) /\
  (forall response, returned out = Return (Some response) ->
     status_code response <> 429 /\
     (0 < requests out)%nat /\
     requests_get url (i + requests out - 1)%nat = Return response) /\
  (forall k, (S k < requests out)%nat ->
     exists response, requests_get url (i + k)%nat = Return response /\
                      status_code response = 429) /\
  (returned out = Return None ->
     requests out = n /\ length (slept out) = n /\
     forall k, (k < n)%nat ->
       exists response, requests_get url (i + k)%nat = Return response /\
                        status_code response = 429).
Proof.
  induction n as [|n IH]; intros i; simpl.
  - split; [lia|]. split; [simpl; lia|]. split; [constructor|].
    split; [discriminate|]. split; [intros; lia|].
    intros _. split; [reflexivity|]. split; [reflexivity|]. intros; lia.
  - destruct (requests_get url i) as [response|e] eqn:Hget; simpl.
    2:{ split; [lia|]. split; [simpl; lia|]. split; [constructor|].
        split; [discriminate|]. split; [intros; lia|discriminate]. }
    destruct (Z.eqb_spec (status_code response) 429) as [H429|Hne].
    2:{ simpl. split; [lia|]. split; [simpl; lia|]. split; [constructor|].
        split; [|split; [intros; lia|discriminate]].
        intros resp E. injection E as <-. split; [exact Hne|]. split; [lia|].
        rewrite <- Hget. f_equal. lia. }
    destruct (default (Return 60) (Retry_After response)) as [retry_after|e]; simpl.
    2:{ split; [lia|]. split; [simpl; lia|]. split; [constructor|].
        split; [discriminate|]. split; [intros; lia|discriminate]. }
    destruct (time_sleep retry_after) as [[]|e] eqn:Hsleep; simpl.
    2:{ split; [lia|]. split; [simpl; lia|]. split; [constructor|].
        split; [discriminate|]. split; [intros; lia|discriminate]. }
    apply time_sleep_returns in Hsleep.
    destruct (IH (S i)) as (Hreq & Hlen & Hpos & Hret & Hseen & Hnone).
    split; [lia|]. split; [lia|]. split; [constructor; [lia|exact Hpos]|].
    split; [|split].
    + intros resp Hr. destruct (Hret resp Hr) as (H1 & H2 & H3).
      split; [exact H1|]. split; [lia|].
      rewrite <- H3. f_equal. lia.
    + intros [|k] Hk.
      * exists response. rewrite Nat.add_0_r. auto.
      * destruct (Hseen k) as (r & Hr & Hs); [lia|].
        exists r. split; [|exact Hs]. rewrite <- Hr. f_equal. lia.
    + intros Hr. destruct (Hnone Hr) as (H1 & H2 & H3).
      split; [lia|]. split; [lia|]. intros [|k] Hk.
      * exists response. rewrite Nat.add_0_r. auto.
      * destruct (H3 k) as (r & Hr' & Hs); [lia|].
        exists r. split; [|exact Hs]. rewrite <- Hr'. f_equal. lia.
Qed.

(** [request_with_retry] never makes more than [max_retries] requests and
    never returns a response with status 429: a response it returns is the
    one of its last request, and every request before that one was
    answered 429. It sleeps at most once per request, never a negative
    time. When it returns [None] it has made all [max_retries] requests,
    every one of them was answered 429, and it has slept after each of
    them, the last one included. *)
Theorem request_with_retry_safe
    (requests_get : string -> nat -> result Response) (url : string)
    (max_retries : Z) :
  let out := request_with_retry requests_get url max_retries in
  (requests out <= Z.to_nat max_retries)%nat /\
  (length (slept out) <= requests out)%nat /\
  Forall (fun s => 0 <= s) (slept out) /\
  (forall response, returned out = Return (Some response) ->
     status_code response <> 429 /\
     (0 < requests out)%nat /\
     requests_get url (requests out - 1)%nat = Return response) /\
  (forall k, (S k < requests out)%nat ->
     exists response, requests_get url k = Return response /\
                      status_code response = 429) /\
  (returned out = Return None ->
     requests out = Z.to_nat max_retries /\
     length (slept out) = Z.to_nat max_retries /\
     forall k, (k < Z.to_nat max_retries)%nat ->
       exists response, requests_get url k = Return response /\
                        status_code response = 429).
Proof.
  exact (attempts_safe requests_get url (Z.to_nat max_retries) 0%nat).
Qed.



End RetryFacts.

(** ** Reading a file in chunks *)

Section FileReaderFacts.

Import FileReader.

Context {A : Type}.
Implicit Types text rest : list A.





End FileReaderFacts.


Section FileReaderAndChunker.

Import FileReader.

Context {A : Type}.


End FileReaderAndChunker.


(** ** The manager and its clients *)

Section ManagerFacts.

Import Cancellation Manager.

Lemma cancel_marks tc now tok : is_cancelled (snd (cancel tc now tok)) = true.
Proof. unfold cancel. destruct (is_cancelled tok) eqn:E; simpl; auto. Qed.

Lemma cancel_active tc now tok :
  is_cancelled tok = false ->
  cancel tc now tok
  = (tc {| analysis_id := analysis_id tok; is_cancelled := true;
           created_at := created_at tok; cancelled_at := Some now |},
     {| analysis_id := analysis_id tok; is_cancelled := true;
        created_at := created_at tok; cancelled_at := Some now |}).
Proof. unfold cancel. intros ->. reflexivity. Qed.

Lemma wf_step tc op st : wf st -> wf (step tc op st).
Proof.
  intros Hwf id r. destruct op as [id' now|id' now|r' now]; simpl.
  - rewrite length_app. simpl. destruct (decide (id' = id)) as [->|Hne].
    + rewrite lookup_insert_eq. intros [= <-]. lia.
    + rewrite lookup_insert_ne by exact Hne. intros H. apply Hwf in H. lia.
  - unfold cancel_analysis.
    destruct (_tokens st !! id') as [r0|]; [|apply Hwf].
    destruct (store st !! r0) as [tok|]; [|apply Hwf].
    destruct (negb (is_cancelled tok)); [|apply Hwf].
    simpl. rewrite length_alter. apply Hwf.
  - rewrite length_alter. apply Hwf.
Qed.

Lemma wf_run tc ops : forall st, wf st -> wf (run tc ops st).
Proof.
  induction ops as [|op ops IH]; intros st Hwf; [exact Hwf|].
  simpl. apply IH, wf_step, Hwf.
Qed.

Lemma wf_init : wf init.
Proof. intros id r H. simpl in H. rewrite lookup_empty in H. discriminate. Qed.

(** [cancel_analysis] on an id whose token is active: the token is marked,
    and the call returns [True] or raises what the callbacks raise. *)
Lemma cancel_analysis_active tc id now st r tok :
  _tokens st !! id = Some r -> store st !! r = Some tok ->
  is_cancelled tok = false ->
  cancel_analysis tc id now st
  = (_ ← tc (snd (cancel tc now tok)); Return true,
     {| store := alter (fun tok => snd (cancel tc now tok)) r (store st);
        _tokens := _tokens st |}).
Proof.
  intros Hid Hr Hc. unfold cancel_analysis, cancel_ref. rewrite Hid, Hr, Hc.
  cbn [negb fst snd from_option]. rewrite (cancel_active tc now tok Hc).
  reflexivity.
Qed.

(** [cancel_analysis] on an id with no active token. *)
Lemma cancel_analysis_inactive tc id now st :
  (forall tok, get id st = Some tok -> is_cancelled tok = true) ->
  cancel_analysis tc id now st = (Return false, st).
Proof.
  unfold cancel_analysis, get. intros H.
  destruct (_tokens st !! id) as [r|]; [|reflexivity]. simpl in H.
  destruct (store st !! r) as [tok|]; [|reflexivity].
  rewrite (H tok eq_refl). reflexivity.
Qed.

(** [cancel_analysis] touches one token at most, whatever the callbacks do:
    the dictionary is left as it is, no token is added or dropped, and
    every token other than the one registered under the id is unchanged.
    When it returns [False] nothing at all has changed. Otherwise the
    registered token was active and is now cancelled with the time of the
    call, and the call returns [True] or raises what the callbacks
    raise. *)
Theorem cancel_analysis_frame
    (_trigger_callbacks : Callbacks)
    (st : State) (id : string) (now : timestamp) :
  let b := fst (cancel_analysis _trigger_callbacks id now st) in
  let st' := snd (cancel_analysis _trigger_callbacks id now st) in
  _tokens st' = _tokens st /\
  length (store st') = length (store st) /\
  (forall r, _tokens st !! id <> Some r -> store st' !! r = store st !! r) /\
  (b = Return false -> st' = st) /\
  (b <> Return false ->
   exists tok, get id st = Some tok /\ is_cancelled tok = false /\
     get id st' = Some {| analysis_id := analysis_id tok; is_cancelled := true;
                          created_at := created_at tok;
                          cancelled_at := Some now |} /\
     b = (_ ← _trigger_callbacks
                {| analysis_id := analysis_id tok; is_cancelled := true;
                   created_at := created_at tok; cancelled_at := Some now |};
          Return true)).
Proof.
  unfold get.
  destruct (_tokens st !! id) as [r0|] eqn:Hid.
  2:{ unfold cancel_analysis. rewrite Hid. simpl.
      repeat split; auto; congruence. }
  destruct (store st !! r0) as [tok|] eqn:Hr0.
  2:{ unfold cancel_analysis. rewrite Hid, Hr0. simpl.
      repeat split; auto; congruence. }
  destruct (is_cancelled tok) eqn:Hc.
  { unfold cancel_analysis. rewrite Hid, Hr0, Hc. simpl.
    repeat split; auto; congruence. }
  rewrite (cancel_analysis_active _ _ _ _ _ _ Hid Hr0 Hc).
  rewrite (cancel_active _ now tok Hc). cbn [fst snd].
  split; [reflexivity|]. split; [apply length_alter|]. split; [|split].
  - intros r Hne. apply list_lookup_alter_ne. congruence.
  - intros Hb.
    destruct (_trigger_callbacks _) as [[]|e]; discriminate Hb.
  - intros _. exists tok. split; [simpl; exact Hr0|]. split; [exact Hc|].
    split; [|reflexivity].
    simpl. rewrite Hid. simpl. rewrite list_lookup_alter_eq, Hr0. simpl.
    rewrite (cancel_active _ now tok Hc). reflexivity.
Qed.

(** [handle_cancellation] never returns [True]. For an id that is unknown
    or whose token is already cancelled it returns [False] and changes
    nothing. For an id whose token is active it cancels the token, which
    stays cancelled whatever the callbacks do; then it returns [None] when
    the callbacks return, [False] when they raise a
    [CancellationNotFoundError] (its own first handler catches it), and it
    raises what they raise otherwise. It raises nothing else. *)
Theorem handle_cancellation_outcome
    (_trigger_callbacks : Callbacks)
    (st : State) (id : string) (now : timestamp) :
  (forall tok, get id st = Some tok -> is_cancelled tok = false ->
     let tok' := snd (cancel _trigger_callbacks now tok) in
     get id (snd (handle_cancellation _trigger_callbacks id now st)) = Some tok' /\
     is_cancelled tok' = true /\ cancelled_at tok' = Some now /\
     fst (handle_cancellation _trigger_callbacks id now st)
     = match _trigger_callbacks tok' with
       | Return _ => Return None
       | Raise (CancellationNotFoundError _) => Return (Some false)
       | Raise e => Raise e
       end) /\
  (forall tok, get id st = Some tok -> is_cancelled tok = true ->
     handle_cancellation _trigger_callbacks id now st = (Return (Some false), st)) /\
  (get id st = None ->
   handle_cancellation _trigger_callbacks id now st = (Return (Some false), st)) /\
  (forall e, fst (handle_cancellation _trigger_callbacks id now st) = Raise e ->
     exists tok, get id st = Some tok /\ is_cancelled tok = false /\
       _trigger_callbacks (snd (cancel _trigger_callbacks now tok)) = Raise e) /\
  fst (handle_cancellation _trigger_callbacks id now st) <> Return (Some true).
Proof.
  assert (Hinactive :
    (forall tok, get id st = Some tok -> is_cancelled tok = true) ->
    handle_cancellation _trigger_callbacks id now st = (Return (Some false), st)).
  { intros H. unfold handle_cancellation.
    rewrite (cancel_analysis_inactive _ _ _ _ H). reflexivity. }
  assert (Hactive : forall tok, get id st = Some tok -> is_cancelled tok = false ->
    handle_cancellation _trigger_callbacks id now st
    = (match _trigger_callbacks (snd (cancel _trigger_callbacks now tok)) with
       | Return _ => Return None
       | Raise (CancellationNotFoundError _) => Return (Some false)
       | Raise e => Raise e
       end,
       snd (cancel_analysis _trigger_callbacks id now st)) /\
    get id (snd (cancel_analysis _trigger_callbacks id now st))
    = Some (snd (cancel _trigger_callbacks now tok))).
  { intros tok Hget Hc. unfold get in Hget.
    destruct (_tokens st !! id) as [r|] eqn:Hid; [|discriminate]. simpl in Hget.
    unfold handle_cancellation.
    rewrite (cancel_analysis_active _ _ _ _ _ _ Hid Hget Hc). cbn [snd]. split.
    - destruct (_trigger_callbacks _) as [[]|[]]; reflexivity.
    - unfold get. simpl. rewrite Hid. simpl.
      rewrite list_lookup_alter_eq, Hget. reflexivity. }
  split; [|split; [|split; [|split]]].
  - intros tok Hget Hc tok'. destruct (Hactive tok Hget Hc) as [E Hnew].
    rewrite E. cbn [fst snd]. split; [exact Hnew|].
    split; [apply cancel_marks|]. split; [|reflexivity].
    unfold tok'. rewrite (cancel_active _ now tok Hc). reflexivity.
  - intros tok Hget Hc. apply Hinactive. intros tok0 H0. congruence.
  - intros Hnone. apply Hinactive. intros tok0 H0. congruence.
  - intros e He. destruct (get id st) as [tok|] eqn:Hget.
    + destruct (is_cancelled tok) eqn:Hc.
      * rewrite Hinactive in He by (intros tok0 H0; congruence). discriminate.
      * exists tok. split; [reflexivity|]. split; [exact Hc|].
        destruct (Hactive tok eq_refl Hc) as [E _]. rewrite E in He.
        cbn [fst] in He.
        destruct (_trigger_callbacks _) as [[]|[]]; congruence.
    + rewrite Hinactive in He by (intros tok0 H0; congruence). discriminate.
  - destruct (get id st) as [tok|] eqn:Hget.
    + destruct (is_cancelled tok) eqn:Hc.
      * rewrite Hinactive by (intros tok0 H0; congruence). discriminate.
      * destruct (Hactive tok eq_refl Hc) as [E _]. rewrite E. cbn [fst].
        destruct (_trigger_callbacks _) as [[]|[]]; discriminate.
    + rewrite Hinactive by (intros tok0 H0; congruence). discriminate.
Qed.

(** With the class as it is listed, cancelling an active analysis marks
    the token and then fails on the missing method: the helper re-raises
    the [AttributeError] and the endpoint answers 500. *)
Example cancellation_as_listed :
  let st := run as_listed [OpCreate "id-1" 10] init in
  let e := AttributeError
             "'CancellationToken' object has no attribute '_trigger_callbacks'" in
  fst (handle_cancellation as_listed "id-1" 20 st) = Raise e /\
  fst (cancel_endpoint as_listed "id-1" 20 21 st) = Return (Failed500 (str e)) /\
  get "id-1" (snd (cancel_endpoint as_listed "id-1" 20 21 st))
  = Some {| analysis_id := "id-1"; is_cancelled := true;
            created_at := 10; cancelled_at := Some 20 |}.
Proof. repeat split. Qed.

(** The cancel endpoint, for an id with an active token, marks the token
    and answers 200 when the callbacks return and 500 with the exception's
    text when they raise an [Exception] (what is no [Exception] leaves the
    view); for an id without an active token it answers 404 and changes
    nothing. A second request for the same id is always answered with the
    404 response and changes nothing, also after a first answer of 500. *)
Theorem cancel_endpoint_twice
    (_trigger_callbacks : Callbacks)
    (st : State) (id : string) (now1 utcnow1 now2 utcnow2 : timestamp) :
  let first := cancel_endpoint _trigger_callbacks id now1 utcnow1 st in
  (forall tok, get id st = Some tok -> is_cancelled tok = false ->
     fst first
     = match _trigger_callbacks (snd (cancel _trigger_callbacks now1 tok)) with
       | Return _ => Return (Cancelled200 id utcnow1)
       | Raise e =>
           if is_Exception e then Return (Failed500 (str e)) else Raise e
       end) /\
  ((forall tok, get id st = Some tok -> is_cancelled tok = true) ->
   first = (Return (NotFound404 "Analysis not found or already completed"), st)) /\
  cancel_endpoint _trigger_callbacks id now2 utcnow2 (snd first)
  = (Return (NotFound404 "Analysis not found or already completed"), snd first).
Proof.
  assert (Hinactive : forall s now utcnow,
    (forall tok, get id s = Some tok -> is_cancelled tok = true) ->
    cancel_endpoint _trigger_callbacks id now utcnow s
    = (Return (NotFound404 "Analysis not found or already completed"), s)).
  { intros s now utcnow H. unfold cancel_endpoint.
    rewrite (cancel_analysis_inactive _ _ _ _ H). reflexivity. }
  cbv zeta. split; [|split].
  - intros tok Hget Hc. unfold get in Hget.
    destruct (_tokens st !! id) as [r|] eqn:Hid; [|discriminate]. simpl in Hget.
    unfold cancel_endpoint.
    rewrite (cancel_analysis_active _ _ _ _ _ _ Hid Hget Hc).
    destruct (_trigger_callbacks _) as [[]|e]; simpl; [reflexivity|].
    destruct (is_Exception e); reflexivity.
  - apply Hinactive.
  - apply Hinactive. intros tok Hget.
    assert (Hsnd : snd (cancel_endpoint _trigger_callbacks id now1 utcnow1 st)
                   = snd (cancel_analysis _trigger_callbacks id now1 st)).
    { unfold cancel_endpoint.
      destruct (cancel_analysis _trigger_callbacks id now1 st) as [[[]|e] s];
        simpl; [reflexivity|reflexivity|].
      destruct (is_Exception e); reflexivity. }
    rewrite Hsnd in Hget. clear Hsnd. unfold get in Hget.
    destruct (_tokens st !! id) as [r|] eqn:Hid.
    2:{ unfold cancel_analysis in Hget. rewrite Hid in Hget. simpl in Hget.
        rewrite Hid in Hget. discriminate. }
    destruct (store st !! r) as [tok0|] eqn:Hr.
    2:{ unfold cancel_analysis in Hget. rewrite Hid, Hr in Hget. simpl in Hget.
        rewrite Hid in Hget. simpl in Hget. congruence. }
    destruct (is_cancelled tok0) eqn:Hc.
    { unfold cancel_analysis in Hget. rewrite Hid, Hr, Hc in Hget. simpl in Hget.
      rewrite Hid in Hget. simpl in Hget. congruence. }
    rewrite (cancel_analysis_active _ _ _ _ _ _ Hid Hr Hc) in Hget.
    simpl in Hget. rewrite Hid in Hget. simpl in Hget.
    rewrite list_lookup_alter_eq, Hr in Hget. simpl in Hget.
    injection Hget as <-. apply cancel_marks.
Qed.

(** Until a token is created again under its id, the token a caller got
    from [create_token] is the one [cancel_analysis] reaches: whatever other
    calls come between, after a [cancel_analysis] on the id the caller's own
    token is cancelled and its check raises. *)
Theorem created_token_sees_cancellation
    (_trigger_callbacks : Callbacks)
    (st : State) (id : string) (now0 now1 : timestamp) (ops : list Op) :
  Forall (fun op => creates id op = false) ops ->
  let r := fst (create_token id now0 st) in
  let st1 := run _trigger_callbacks ops (snd (create_token id now0 st)) in
  let st2 := snd (cancel_analysis _trigger_callbacks id now1 st1) in
  exists tok,
    store st2 !! r = Some tok /\
    get id st2 = Some tok /\
    is_cancelled tok = true /\
    check_cancelled_async tok = Raise CancelledError.
Proof.
  intros Hops. simpl.
  set (r := length (store st)).
  assert (Hinv : forall ops s,
    Forall (fun op => creates id op = false) ops ->
    _tokens s !! id = Some r -> is_Some (store s !! r) ->
    _tokens (run _trigger_callbacks ops s) !! id = Some r /\
    is_Some (store (run _trigger_callbacks ops s) !! r)).
  { clear. induction ops as [|op ops IH]; intros s Hall Hid Hr; [auto|].
    inversion Hall as [|? ? Hop Hrest]; subst. simpl. apply IH; [exact Hrest| |].
    - destruct op as [id' now|id' now|r' now]; simpl in *.
      + apply String.eqb_neq in Hop. rewrite lookup_insert_ne by exact Hop. exact Hid.
      + unfold cancel_analysis.
        destruct (_tokens s !! id') as [r0|]; [|exact Hid].
        destruct (store s !! r0) as [tok|]; [|exact Hid].
        destruct (negb (is_cancelled tok)); exact Hid.
      + exact Hid.
    - destruct Hr as [tok Hr].
      destruct op as [id' now|id' now|r' now]; simpl.
      + rewrite lookup_app_l by (eapply lookup_lt_Some, Hr). eauto.
      + unfold cancel_analysis.
        destruct (_tokens s !! id') as [r0|]; [|eauto].
        destruct (store s !! r0) as [tok0|]; [|eauto].
        destruct (negb (is_cancelled tok0)); [|eauto]. simpl.
        rewrite list_lookup_alter. case_decide; [subst; rewrite Hr|rewrite Hr]; eauto.
      + rewrite list_lookup_alter. case_decide; [subst; rewrite Hr|rewrite Hr]; eauto. }
  destruct (Hinv ops {| store := store st ++ [new_token id now0];
                        _tokens := <[id := r]> (_tokens st) |} Hops)
    as [Hid [tok Hr]].
  { apply lookup_insert_eq. }
  { simpl. unfold r. rewrite lookup_app_r by lia. rewrite Nat.sub_diag. eauto. }
  unfold cancel_analysis, get. rewrite Hid, Hr.
  destruct (is_cancelled tok) eqn:Hc; simpl.
  - exists tok. rewrite Hid. simpl. rewrite Hr.
    unfold check_cancelled_async. rewrite Hc. auto.
  - exists (snd (cancel _trigger_callbacks now1 tok)). rewrite Hid. simpl.
    rewrite list_lookup_alter_eq, Hr. simpl.
    unfold check_cancelled_async. rewrite cancel_marks. auto.
Qed.

Lemma created_token_sees_cancellation_witness :
  let st := run no_callbacks [OpCreate "other" 1] init in
  let ops := [OpCreate "id-2" 12; OpCancelAnalysis "other" 13] in
  let r := fst (create_token "id-1" 10 st) in
  let st1 := run no_callbacks ops (snd (create_token "id-1" 10 st)) in
  let st2 := snd (cancel_analysis no_callbacks "id-1" 20 st1) in
  exists tok,
    store st2 !! r = Some tok /\
    get "id-1" st2 = Some tok /\
    is_cancelled tok = true /\
    check_cancelled_async tok = Raise CancelledError.
Proof.
  apply (created_token_sees_cancellation no_callbacks
           (run no_callbacks [OpCreate "other" 1] init)
           "id-1" 10 20 [OpCreate "id-2" 12; OpCancelAnalysis "other" 13]).
  repeat constructor.
Defined.

(** A second [create_token] under the same id cuts the first token off:
    from then on no call of the manager's methods, for any id, cancels the
    first token, and no id leads to it any more. Its holder's check keeps
    returning. *)
Theorem replaced_token_is_never_cancelled
    (_trigger_callbacks : Callbacks)
    (ops0 : list Op) (id : string) (now0 now1 : timestamp) (ops : list Op) :
  Forall (fun op => manager_call op = true) ops ->
  let st := run _trigger_callbacks ops0 init in
  let r := fst (create_token id now0 st) in
  let st1 := snd (create_token id now0 st) in
  let st2 := snd (create_token id now1 st1) in
  store (run _trigger_callbacks ops st2) !! r = Some (new_token id now0) /\
  check_cancelled_async (new_token id now0) = Return tt /\
  (forall id', _tokens (run _trigger_callbacks ops st2) !! id' <> Some r).
Proof.
  intros Hops. simpl.
  set (st := run _trigger_callbacks ops0 init). set (r := length (store st)).
  assert (Hwf : wf st) by (apply wf_run, wf_init).
  assert (Hinv : forall ops s,
    Forall (fun op => manager_call op = true) ops ->
    store s !! r = Some (new_token id now0) ->
    (forall id', _tokens s !! id' <> Some r) ->
    store (run _trigger_callbacks ops s) !! r = Some (new_token id now0) /\
    (forall id', _tokens (run _trigger_callbacks ops s) !! id' <> Some r)).
  { clear. induction ops as [|op ops IH]; intros s Hall Hr Hnone; [auto|].
    inversion Hall as [|? ? Hop Hrest]; subst. simpl. apply IH; [exact Hrest| |].
    - destruct op as [id' now|id' now|r' now]; simpl in *; [| |discriminate].
      + rewrite lookup_app_l by (eapply lookup_lt_Some, Hr). exact Hr.
      + unfold cancel_analysis.
        destruct (_tokens s !! id') as [r0|] eqn:Hid; [|exact Hr].
        destruct (store s !! r0) as [tok0|]; [|exact Hr].
        destruct (negb (is_cancelled tok0)); [|exact Hr]. simpl.
        rewrite list_lookup_alter_ne; [exact Hr|].
        intros ->. exact (Hnone id' Hid).
    - destruct op as [id' now|id' now|r' now]; simpl in *; [| |discriminate].
      + intros id''. destruct (decide (id' = id'')) as [->|Hne].
        * rewrite lookup_insert_eq. intros [= E].
          apply lookup_lt_Some in Hr. lia.
        * rewrite lookup_insert_ne by exact Hne. apply Hnone.
      + unfold cancel_analysis.
        destruct (_tokens s !! id') as [r0|]; [|exact Hnone].
        destruct (store s !! r0) as [tok0|]; [|exact Hnone].
        destruct (negb (is_cancelled tok0)); exact Hnone. }
  destruct (Hinv ops
    {| store := (store st ++ [new_token id now0]) ++ [new_token id now1];
       _tokens := <[id := length (store st ++ [new_token id now0])]>
                    (<[id := r]> (_tokens st)) |} Hops) as [H1 H2].
  - simpl. rewrite lookup_app_l by (rewrite length_app; simpl; lia).
    unfold r. rewrite lookup_app_r by lia. rewrite Nat.sub_diag. reflexivity.
  - simpl. intros id'. destruct (decide (id = id')) as [->|Hne].
    + rewrite lookup_insert_eq, length_app. simpl. intros [= E]. unfold r in E. lia.
    + rewrite !lookup_insert_ne by exact Hne. intros Hid.
      apply Hwf in Hid. unfold r in Hid. lia.
  - split; [exact H1|]. split; [reflexivity|exact H2].
Qed.

Lemma replaced_token_is_never_cancelled_witness :
  let ops0 := [OpCreate "other" 1] in
  let ops := [OpCancelAnalysis "id-1" 20; OpCreate "id-3" 21;
              OpCancelAnalysis "other" 22] in
  let st := run no_callbacks ops0 init in
  let r := fst (create_token "id-1" 10 st) in
  let st1 := snd (create_token "id-1" 10 st) in
  let st2 := snd (create_token "id-1" 11 st1) in
  store (run no_callbacks ops st2) !! r = Some (new_token "id-1" 10) /\
  check_cancelled_async (new_token "id-1" 10) = Return tt /\
  (forall id', _tokens (run no_callbacks ops st2) !! id' <> Some r).
Proof.
  apply (replaced_token_is_never_cancelled no_callbacks [OpCreate "other" 1] "id-1" 10 11
           [OpCancelAnalysis "id-1" 20; OpCreate "id-3" 21;
            OpCancelAnalysis "other" 22]).
  repeat constructor.
Defined.

End ManagerFacts.

(** ** What the streaming loops pass on *)

Section PassThroughFacts.

Import Streaming.

Lemma chars_app log1 log2 : chars (log1 ++ log2) = chars log1 + chars log2.
Proof.
  induction log1 as [|t log1 IH]; simpl; [reflexivity|].
  unfold chars in *. simpl. rewrite IH. lia.
Qed.

(** [stream_with_cancellation] passes the fragments on unchanged and in
    order. When it comes to its end it has yielded every fragment of the
    stream; when a check raises, it has yielded the fragments before the
    one that triggered the check, that one is not yielded, and the
    exception is the check's. *)
Theorem stream_with_cancellation_passes_fragments
    (self : StreamingAnalyzer) (ai_stream : list (string * result unit))
    (log : list Turn) (self' : StreamingAnalyzer) (r : result unit) :
  stream_with_cancellation self ai_stream = (log, self', r) ->
  map fragment log = take (length log) (map fst ai_stream) /\
  (r = Return tt ->
     map fragment log = map fst ai_stream /\
     Forall (fun t => yielded t = true) log) /\
  (forall e, r = Raise e ->
     exists before t,
       log = before ++ [t] /\
       Forall (fun t => yielded t = true) before /\
       yielded t = false /\ checked t = true /\
       ai_stream !! length before = Some (fragment t, Raise e)).
Proof.
  revert self log self' r.
  induction ai_stream as [|[chunk chk] rest IH]; intros self log self' r H.
  - simpl in H. injection H as <- <- <-. simpl.
    split; [reflexivity|]. split; [auto|discriminate].
  - simpl in H.
    destruct (check_interval self <=? chars_since_check self + len chunk).
    + destruct chk as [[]|e0].
      * destruct (stream_with_cancellation _ rest) as [[log2 s2] r2] eqn:Hrun.
        injection H as <- <- <-.
        destruct (IH _ _ _ _ Hrun) as (Hpre & Hret & Hraise). simpl.
        split; [f_equal; exact Hpre|]. split.
        -- intros Hr. destruct (Hret Hr) as [H1 H2].
           split; [f_equal; exact H1|constructor; [reflexivity|exact H2]].
        -- intros e Hr. destruct (Hraise e Hr) as (before & t & -> & Hb & Hy & Hc & Hl).
           eexists (_ :: before), t. split; [reflexivity|].
           split; [constructor; [reflexivity|exact Hb]|]. auto.
      * injection H as <- <- <-. simpl.
        split; [reflexivity|]. split; [discriminate|].
        intros e [= <-]. exists [], {| fragment := chunk; checked := true; yielded := false |}.
        simpl. auto.
    + destruct (stream_with_cancellation _ rest) as [[log2 s2] r2] eqn:Hrun.
      injection H as <- <- <-.
      destruct (IH _ _ _ _ Hrun) as (Hpre & Hret & Hraise). simpl.
      split; [f_equal; exact Hpre|]. split.
      * intros Hr. destruct (Hret Hr) as [H1 H2].
        split; [f_equal; exact H1|constructor; [reflexivity|exact H2]].
      * intros e Hr. destruct (Hraise e Hr) as (before & t & -> & Hb & Hy & Hc & Hl).
        eexists (_ :: before), t. split; [reflexivity|].
        split; [constructor; [reflexivity|exact Hb]|]. auto.
Qed.

Lemma stream_with_cancellation_passes_fragments_witness :
  let log := [ {| fragment := "ab"; checked := false; yielded := true |};
               {| fragment := "cde"; checked := true; yielded := true |};
               {| fragment := "f"; checked := false; yielded := true |};
               {| fragment := "ghijkl"; checked := true; yielded := false |} ] in
  let ai_stream := [("ab", Return tt); ("cde", Return tt); ("f", Return tt);
                    ("ghijkl", Raise CancelledError); ("mn", Return tt)] in
  let r : result unit := Raise CancelledError in
  map fragment log = take (length log) (map fst ai_stream) /\
  (r = Return tt ->
     map fragment log = map fst ai_stream /\
     Forall (fun t => yielded t = true) log) /\
  (forall e, r = Raise e ->
     exists before t,
       log = before ++ [t] /\
       Forall (fun t => yielded t = true) before /\
       yielded t = false /\ checked t = true /\
       ai_stream !! length before = Some (fragment t, Raise e)).
Proof.
  apply (stream_with_cancellation_passes_fragments
           {| check_interval := 5; chars_since_check := 0 |}
           [("ab", Return tt); ("cde", Return tt); ("f", Return tt);
            ("ghijkl", Raise CancelledError); ("mn", Return tt)]
           _ {| check_interval := 5; chars_since_check := 7 |}).
  reflexivity.
Defined.

(** Fewer than [check_interval] characters pass between two checks: a run
    of fragments handled without a check, after a check or from the start,
    is shorter than the interval (from the start, the attribute's starting
    value counts too). *)
Theorem stream_with_cancellation_unchecked_run_is_short
    (self : StreamingAnalyzer) (ai_stream : list (string * result unit))
    (log : list Turn) (self' : StreamingAnalyzer) (r : result unit) :
  stream_with_cancellation self ai_stream = (log, self', r) ->
  (forall mid post, log = mid ++ post -> mid <> [] -> Forall unchecked mid ->
     chars_since_check self + chars mid < check_interval self) /\
  (forall pre c mid post, log = pre ++ c :: mid ++ post -> mid <> [] ->
     checked c = true -> Forall unchecked mid ->
     chars mid < check_interval self).
Proof.
  intros H. destruct (stream_with_cancellation_log _ _ _ _ _ H) as (_ & Hlog & _).
  assert (Hlast : forall mid : list Turn, mid <> [] ->
            exists mid' t, mid = mid' ++ [t]).
  { intros mid Hne. destruct (exists_last Hne) as (mid' & t & ->). eauto. }
  split.
  - intros mid post -> Hne Hall. destruct (Hlast mid Hne) as (mid' & t & ->).
    apply Forall_app in Hall as [Hall' Ht]. inversion Ht as [|? ? Hun _]; subst.
    assert (E : (mid' ++ [t]) ++ post = mid' ++ t :: post)
      by (rewrite <- app_assoc; reflexivity).
    specialize (Hlog mid' t post E). rewrite Hun in Hlog.
    rewrite counter_after_unchecked in Hlog by exact Hall'.
    symmetry in Hlog. apply Z.leb_gt in Hlog.
    rewrite chars_app. unfold chars at 2. simpl. lia.
  - intros pre c mid post -> Hne Hc Hall. destruct (Hlast mid Hne) as (mid' & t & ->).
    apply Forall_app in Hall as [Hall' Ht]. inversion Ht as [|? ? Hun _]; subst.
    assert (E : pre ++ c :: (mid' ++ [t]) ++ post = (pre ++ c :: mid') ++ t :: post)
      by (rewrite <- ?app_assoc; simpl; rewrite <- ?app_assoc; reflexivity).
    specialize (Hlog (pre ++ c :: mid') t post E). rewrite Hun in Hlog.
    rewrite counter_after_check in Hlog by assumption.
    symmetry in Hlog. apply Z.leb_gt in Hlog.
    rewrite chars_app. unfold chars at 2. simpl. lia.
Qed.

Lemma stream_with_cancellation_unchecked_run_is_short_witness :
  let self := {| check_interval := 5; chars_since_check := 0 |} in
  let log := [ {| fragment := "分析"; checked := false; yielded := true |};
               {| fragment := "完成"; checked := false; yielded := true |};
               {| fragment := "ab"; checked := true; yielded := true |};
               {| fragment := "c"; checked := false; yielded := true |} ] in
  (forall mid post, log = mid ++ post -> mid <> [] -> Forall unchecked mid ->
     chars_since_check self + chars mid < check_interval self) /\
  (forall pre c mid post, log = pre ++ c :: mid ++ post -> mid <> [] ->
     checked c = true -> Forall unchecked mid ->
     chars mid < check_interval self).
Proof.
  apply (stream_with_cancellation_unchecked_run_is_short
           {| check_interval := 5; chars_since_check := 0 |}
           [("分析", Return tt); ("完成", Return tt); ("ab", Return tt);
            ("c", Return tt)]
           _ {| check_interval := 5; chars_since_check := 1 |} (Return tt)).
  reflexivity.
Defined.

End PassThroughFacts.

(** ** A completed analysis *)

Section CompletedFacts.

Import Engine Endpoint.

(** The loop on a stream that delivers [chunks] and ends, while the status
    calls return. *)
Lemma consume_completed engine chunks : forall chunk_count,
  0 <= chunk_count ->
  (forall k, (k < length chunks)%nat ->
     exists status, get_status engine (Z.to_nat chunk_count + k) = Return status) ->
  exists evs,
    consume engine (map Return chunks) chunk_count = (evs, None) /\
    contents evs = chunks /\
    count_content evs = Z.of_nat (length chunks).
Proof.
  induction chunks as [|chunk chunks IH]; intros cc Hcc Hst; simpl.
  - exists []. auto.
  - destruct (Hst 0%nat) as [status Hs]; [simpl; lia|].
    rewrite Nat.add_0_r in Hs. rewrite Hs.
    destruct (IH (cc + 1)) as (more & Hmore & Hcont & Hcount); [lia| |].
    { intros k Hk. destruct (Hst (S k)) as [s' Hs']; [simpl; lia|].
      exists s'. rewrite <- Hs'. f_equal. lia. }
    rewrite Hmore. eexists. split; [reflexivity|]. split.
    + unfold contents in *. simpl. rewrite omap_app, Hcont.
      destruct status; reflexivity.
    + rewrite count_content_cons, count_content_app, Hcount. simpl.
      destruct status; unfold count_content; simpl; lia.
Qed.

(** When the engine's stream delivers its chunks and ends (the mode and
    provider being valid and the status calls returning), the generator
    yields the start event, the events of the chunks and [Complete], and
    returns. Its [Content] events carry exactly the chunks the engine
    delivered, each once and in order. *)
Theorem generate_completed_reproduces_output
    (env : Env) (engine : CancellableAiAnalysisEngine)
    (content log_type mode provider : string)
    (analysis_mode : AnalysisMode) (chunks : list string) :
  ANALYSIS_ENGINE env = Some engine ->
  AnalysisMode_of mode = Return analysis_mode ->
  provider = "" \/ provider ∈ ModelProvider_values env ->
  Engine.analyze_with_cancellation engine content log_type analysis_mode
    (if String.eqb provider "" then None else Some provider) (uuid4 env)
    = map Return chunks ->
  (forall k, (k < length chunks)%nat ->
     exists status, get_status engine k = Return status) ->
  exists mids,
    generate env content log_type mode provider
      = (Start (uuid4 env) :: mids ++ [Complete], Returned) /\
    contents mids = chunks /\
    contents (fst (generate env content log_type mode provider)) = chunks /\
    Forall (fun ev => is_terminal ev = false /\ is_start ev = false) mids.
Proof.
  intros Hengine Hmode Hprov Hstream Hstatus.
  destruct (consume_completed engine chunks 0) as (mids & Hloop & Hcont & _);
    [lia|exact Hstatus|].
  assert (Hgen : generate env content log_type mode provider
                 = (Start (uuid4 env) :: mids ++ [Complete], Returned)).
  { unfold generate, generate_body. rewrite Hengine, Hmode.
    destruct (String.eqb provider "") eqn:Hempty.
    - rewrite Hstream, Hloop. reflexivity.
    - destruct Hprov as [->|Hin]; [discriminate|].
      unfold ModelProvider_of. rewrite bool_decide_eq_true_2 by exact Hin.
      simpl. rewrite Hstream, Hloop. reflexivity. }
  exists mids. split; [exact Hgen|]. split; [exact Hcont|].
  split; [|eapply consume_middle, Hloop].
  rewrite Hgen. simpl. unfold contents in *. simpl. rewrite omap_app, Hcont.
  simpl. apply app_nil_r.
Qed.

Lemma generate_completed_reproduces_output_witness :
  let engine := {| Engine.analyze_with_cancellation := fun _ _ _ _ _ =>
                     [Return "Main thread "; Return "is blocked"];
                   get_status := fun _ => Return None |} in
  let env := {| USE_MOCK_ANALYSIS := None;
                ANALYSIS_ENGINE := Some engine;
                uuid4 := "id-1";
                analyze_with_cancellation_mock_impl :=
                  fun _ _ _ _ => Raise (RuntimeError "no mock");
                ModelProvider_values := ["anthropic"; "openai"] |} in
  exists mids,
    generate env "ANR in com.example" "anr" "large_file" ""
      = (Start (uuid4 env) :: mids ++ [Complete], Returned) /\
    contents mids = ["Main thread "; "is blocked"] /\
    contents (fst (generate env "ANR in com.example" "anr" "large_file" ""))
      = ["Main thread "; "is blocked"] /\
    Forall (fun ev => is_terminal ev = false /\ is_start ev = false) mids.
Proof.
  intros engine env.
  apply (generate_completed_reproduces_output env engine
           "ANR in com.example" "anr" "large_file" "" LARGE_FILE
           ["Main thread "; "is blocked"]).
  - reflexivity.
  - reflexivity.
  - left. reflexivity.
  - reflexivity.
  - intros k _. eexists. reflexivity.
Defined.

End CompletedFacts.

(** ** The analyzer without a token *)

Section AnalyzerWithoutToken.

Import Cancellation Analyzer.

(** An analyzer that was given no token never stops for a cancellation:
    whatever calls reach the manager meanwhile, as long as the provider
    delivers, it yields the text of every delta of the stream, runs no
    clean-up and comes to its end. It makes no call to the manager
    itself. *)
Theorem analyzer_without_token_ignores_cancellation
    (_trigger_callbacks : Callbacks)
    (stream : list (list Op * result ProviderEvent)) (st : State) :
  Forall (fun step => exists ev, snd step = Return ev) stream ->
  analyze_anr_async _trigger_callbacks None stream st
  = {| yielded := delta_texts stream;
       final := run _trigger_callbacks (calls_of stream) st;
       cleaned_up := false;
       ending := Return tt |}.
Proof.
  revert st. induction stream as [|[calls next] stream IH]; intros st Hall.
  - reflexivity.
  - inversion Hall as [|? ? [ev Hev] Hrest]; subst. simpl in Hev. subst next.
    simpl. rewrite (IH _ Hrest). unfold calls_of. simpl. rewrite run_app.
    unfold delta_texts. destruct ev; reflexivity.
Qed.

Lemma analyzer_without_token_ignores_cancellation_witness :
  analyze_anr_async no_callbacks None
    [([], Return (content_block_delta "Main thread "));
     ([OpCancelAnalysis "id-1" 20], Return (content_block_delta "is blocked"))]
    (run no_callbacks [OpCreate "id-1" 10] init)
  = {| yielded := delta_texts
         [([], Return (content_block_delta "Main thread "));
          ([OpCancelAnalysis "id-1" 20], Return (content_block_delta "is blocked"))];
       final := run no_callbacks (calls_of
         [([], Return (content_block_delta "Main thread "));
          ([OpCancelAnalysis "id-1" 20], Return (content_block_delta "is blocked"))])
         (run no_callbacks [OpCreate "id-1" 10] init);
       cleaned_up := false;
       ending := Return tt |}.
Proof.
  apply (analyzer_without_token_ignores_cancellation no_callbacks
           [([], Return (content_block_delta "Main thread "));
            ([OpCancelAnalysis "id-1" 20], Return (content_block_delta "is blocked"))]
           (run no_callbacks [OpCreate "id-1" 10] init)).
  repeat constructor; eexists; reflexivity.
Defined.

End AnalyzerWithoutToken.

(** ** The component on a stream of events *)

Section ComponentFacts.

Import Engine Endpoint.

Local Abbreviation State := AnalysisComponent.State.
Local Abbreviation receive := AnalysisComponent.receive.
Local Abbreviation deliver := AnalysisComponent.deliver.
Local Abbreviation Sent := AnalysisComponent.Sent.
Local Abbreviation ongoing := AnalysisComponent.ongoing.
Local Abbreviation joined := AnalysisComponent.joined.
Local Abbreviation texts := AnalysisComponent.texts.

Lemma append_assoc (s1 s2 s3 : string) :
  ((s1 ++ s2) ++ s3)%string = (s1 ++ s2 ++ s3)%string.
Proof.
  induction s1 as [|a s1 IH]; [reflexivity|].
  change (String a ((s1 ++ s2) ++ s3)%string = String a (s1 ++ s2 ++ s3)%string).
  f_equal. exact IH.
Qed.

Lemma joined_app l1 l2 :
  joined (l1 ++ l2) = (joined l1 ++ joined l2)%string.
Proof.
  induction l1 as [|s l1 IH]; simpl; [reflexivity|].
  rewrite IH. symmetry. apply append_assoc.
Qed.

Lemma append_empty_r (s : string) : (s ++ "")%string = s.
Proof.
  induction s as [|a s IH]; [reflexivity|].
  change (String a (s ++ "")%string = String a s). f_equal. exact IH.
Qed.

Lemma deliver_open (st : State) m :
  AnalysisComponent.eventSource st = Some true ->
  deliver st m = AnalysisComponent.onmessage st m.
Proof. intros H. unfold AnalysisComponent.deliver. rewrite H. reflexivity. Qed.

Lemma deliver_closed (st : State) m :
  AnalysisComponent.eventSource st <> Some true -> deliver st m = st.
Proof.
  intros H. unfold AnalysisComponent.deliver.
  destruct (AnalysisComponent.eventSource st) as [[|]|]; congruence.
Qed.

Lemma receive_cons (st : State) m messages :
  receive st (m :: messages) = receive (deliver st m) messages.
Proof. reflexivity. Qed.

Lemma receive_closed (st : State) messages :
  AnalysisComponent.eventSource st <> Some true -> receive st messages = st.
Proof.
  intros Hclosed. induction messages as [|m messages IH]; [reflexivity|].
  rewrite receive_cons, deliver_closed by exact Hclosed. exact IH.
Qed.

(** While the source is open and no terminal message comes, the flag and
    the source stay as they are and the result grows by the content
    texts. *)
Lemma receive_ongoing messages : forall st : State,
  AnalysisComponent.eventSource st = Some true ->
  Forall (fun m => ongoing m = true) messages ->
  AnalysisComponent.isAnalyzing (receive st messages) = AnalysisComponent.isAnalyzing st /\
  AnalysisComponent.eventSource (receive st messages) = Some true /\
  AnalysisComponent.result (receive st messages)
    = (AnalysisComponent.result st ++ joined (texts messages))%string.
Proof.
  induction messages as [|m messages IH]; intros st Hopen Hall.
  - change (receive st []) with st. change (joined (texts [])) with "".
    rewrite append_empty_r. auto.
  - inversion Hall as [|? ? Hm Hrest]; subst.
    rewrite receive_cons, deliver_open by exact Hopen.
    assert (Hopen1 : AnalysisComponent.eventSource (AnalysisComponent.onmessage st m)
                     = Some true)
      by (destruct m as [[id|c|p cc t i o| | |e]|ty]; try discriminate; exact Hopen).
    destruct (IH _ Hopen1 Hrest) as (H1 & H2 & H3). rewrite H1, H2, H3.
    destruct m as [[id|c|p cc t i o| | |e]|ty]; try discriminate;
      repeat split; try reflexivity.
    change (texts (Sent (Content c) :: messages)) with (c :: texts messages).
    change (joined (c :: texts messages)) with (c ++ joined (texts messages))%string.
    apply append_assoc.
Qed.

Lemma component_stops_here
    (st : State) (before after : list AnalysisComponent.Data) (closing : Event) :
  AnalysisComponent.eventSource st = Some true ->
  Forall (fun m => ongoing m = true) before ->
  is_terminal closing = true ->
  AnalysisComponent.isAnalyzing (receive st (before ++ Sent closing :: after)) = false /\
  AnalysisComponent.eventSource (receive st (before ++ Sent closing :: after))
    = Some false /\
  AnalysisComponent.result (receive st (before ++ Sent closing :: after))
    = (AnalysisComponent.result st ++ joined (texts before)
       ++ AnalysisComponent.closing_text closing)%string /\
  AnalysisComponent.analysisId (receive st (before ++ Sent closing :: after))
    = AnalysisComponent.analysisId (receive st before).
Proof.
  intros Hopen Hbefore Hterm.
  destruct (receive_ongoing before st Hopen Hbefore) as (H1 & H2 & H3).
  assert (Happ : receive st (before ++ Sent closing :: after)
                 = receive (deliver (receive st before) (Sent closing)) after)
    by (unfold AnalysisComponent.receive; rewrite foldl_app; reflexivity).
  rewrite Happ, deliver_open by exact H2.
  set (mid := receive st before) in *.
  rewrite receive_closed by (destruct closing; simpl; discriminate).
  destruct closing; try discriminate; simpl; rewrite H3;
    repeat split; try reflexivity.
  - unfold AnalysisComponent.closing_text. rewrite append_empty_r. reflexivity.
  - apply append_assoc.
  - unfold AnalysisComponent.closing_text. rewrite append_empty_r. reflexivity.
Qed.

(** On an open source the component handles the messages up to the first
    terminal one and nothing after it. Then it is no longer analyzing, the
    source is closed, and the result is what it was, followed by the
    content texts received before the terminal message in their order,
    followed by the cancellation mark when that message was [cancelled]. *)
Theorem component_stops_at_terminal_message
    (st : State) (before after : list AnalysisComponent.Data) (closing : Event) :
  AnalysisComponent.eventSource st = Some true ->
  Forall (fun m => ongoing m = true) before ->
  is_terminal closing = true ->
  let final := receive st (before ++ Sent closing :: after) in
  AnalysisComponent.isAnalyzing final = false /\
  AnalysisComponent.eventSource final = Some false /\
  AnalysisComponent.result final
    = (AnalysisComponent.result st ++ joined (texts before)
       ++ AnalysisComponent.closing_text closing)%string /\
  AnalysisComponent.analysisId final
    = AnalysisComponent.analysisId (receive st before).
Proof.
  intros Hopen Hbefore Hterm. simpl.
  apply component_stops_here; assumption.
Qed.

Lemma component_stops_at_terminal_message_witness :
  let st := AnalysisComponent.startAnalysis AnalysisComponent.initial in
  let before := [Sent (Start "id-1"); Sent (Content "Main thread ");
                 Sent (Progress 10 1 1 120 7); Sent (Content "is blocked")] in
  let final := receive st (before ++ Sent Cancelled :: [Sent (Content " on a lock")]) in
  AnalysisComponent.isAnalyzing final = false /\
  AnalysisComponent.eventSource final = Some false /\
  AnalysisComponent.result final
    = (AnalysisComponent.result st ++ joined (texts before)
       ++ AnalysisComponent.closing_text Cancelled)%string /\
  AnalysisComponent.analysisId final
    = AnalysisComponent.analysisId (receive st before).
Proof.
  apply (component_stops_at_terminal_message
           (AnalysisComponent.startAnalysis AnalysisComponent.initial)
           [Sent (Start "id-1"); Sent (Content "Main thread ");
            Sent (Progress 10 1 1 120 7); Sent (Content "is blocked")]
           [Sent (Content " on a lock")] Cancelled).
  - reflexivity.
  - repeat constructor.
  - reflexivity.
Defined.

Lemma texts_Sent evs : texts (map Sent evs) = contents evs.
Proof.
  induction evs as [|ev evs IH]; [reflexivity|].
  destruct ev as [id|c|p cc t i o| | |e];
    try (change (texts (map Sent evs) = contents evs); exact IH).
  change (c :: texts (map Sent evs) = c :: contents evs). f_equal. exact IH.
Qed.

Lemma receive_keeps_analysisId messages : forall st : State,
  Forall (fun m => match m with Sent (Start _) => False | _ => True end) messages ->
  AnalysisComponent.analysisId (receive st messages) = AnalysisComponent.analysisId st.
Proof.
  induction messages as [|m messages IH]; intros st Hall; [reflexivity|].
  inversion Hall as [|? ? Hm Hrest]; subst. rewrite receive_cons, (IH _ Hrest).
  unfold AnalysisComponent.deliver.
  destruct (AnalysisComponent.eventSource st) as [[|]|]; try reflexivity.
  destruct m as [[id|c|p cc t i o| | |e]|ty]; try reflexivity. contradiction.
Qed.

(** A generator that returns with an engine configured has closed its
    stream with a terminal event. *)
Lemma generate_returned_with_engine env engine content log_type mode provider :
  ANALYSIS_ENGINE env = Some engine ->
  snd (generate env content log_type mode provider) = Returned ->
  exists ev, last (fst (generate env content log_type mode provider)) = Some ev /\
             is_terminal ev = true.
Proof.
  intros Hengine. unfold generate, generate_body. rewrite Hengine.
  assert (Hraise : forall evs x,
    let out := match x with
               | CancellationException =>
                   (Start (uuid4 env) :: evs ++ [Cancelled], Returned)
               | _ => if is_Exception x
                      then (Start (uuid4 env) :: evs ++ [Error (str x)], Returned)
                      else (Start (uuid4 env) :: evs, Uncaught x)
               end in
    snd out = Returned ->
    exists ev, last (fst out) = Some ev /\ is_terminal ev = true).
  { intros evs x. destruct x; simpl; try discriminate; intros _;
      rewrite app_comm_cons, last_snoc; eauto. }
  destruct (AnalysisMode_of mode) as [am|x].
  - destruct (if String.eqb provider "" then _ else _) as [mp|x].
    + destruct (consume engine _ 0) as [evs [x|]] eqn:Hloop.
      * pose proof (Hraise evs x) as Hx. destruct x; exact Hx.
      * simpl. intros _. rewrite app_comm_cons, last_snoc. eauto.
    + pose proof (Hraise [] x) as Hx. destruct x; exact Hx.
  - pose proof (Hraise [] x) as Hx. destruct x; exact Hx.
Qed.

(** The component on the stream one run of the generator yields, from a
    fresh start. It learns the analysis id of the start event; its result
    is the content texts of the stream in their order, followed by the
    cancellation mark when the stream ends with [cancelled]; and it stops
    analyzing, closing the source, exactly when the stream's last event is
    a terminal one. So it stops whenever the generator returns with an
    engine configured, and it is left analyzing, with an empty result,
    when no engine is configured and the mock view returns. *)
Theorem component_on_generated_stream
    (env : Env) (content log_type mode provider : string) :
  let events := fst (generate env content log_type mode provider) in
  let closed := from_option is_terminal false (last events) in
  let final :=
    receive (AnalysisComponent.startAnalysis AnalysisComponent.initial)
      (map Sent events) in
  AnalysisComponent.analysisId final = Some (uuid4 env) /\
  AnalysisComponent.result final
    = (joined (contents events)
       ++ from_option AnalysisComponent.closing_text "" (last events))%string /\
  AnalysisComponent.isAnalyzing final = negb closed /\
  AnalysisComponent.eventSource final = Some (negb closed) /\
  (forall engine, ANALYSIS_ENGINE env = Some engine ->
     snd (generate env content log_type mode provider) = Returned ->
     AnalysisComponent.isAnalyzing final = false) /\
  (ANALYSIS_ENGINE env = None ->
   (exists resp, analyze_with_cancellation_mock_impl env content log_type mode provider
                 = Return resp) ->
   AnalysisComponent.isAnalyzing final = true /\
   AnalysisComponent.result final = "").
Proof.
  simpl.
  set (st0 := AnalysisComponent.startAnalysis AnalysisComponent.initial).
  set (events := fst (generate env content log_type mode provider)).
  assert (Hmain :
    AnalysisComponent.analysisId (receive st0 (map Sent events)) = Some (uuid4 env) /\
    AnalysisComponent.result (receive st0 (map Sent events))
      = (joined (contents events)
         ++ from_option AnalysisComponent.closing_text "" (last events))%string /\
    AnalysisComponent.isAnalyzing (receive st0 (map Sent events))
      = negb (from_option is_terminal false (last events)) /\
    AnalysisComponent.eventSource (receive st0 (map Sent events))
      = Some (negb (from_option is_terminal false (last events)))).
  { destruct (generate_shape env content log_type mode provider)
      as (evs & tail & Hshape & Hevs & Htail).
    fold events in Hshape.
    assert (Hmid : Forall (fun ev => is_terminal ev = false /\ is_start ev = false) evs).
    { destruct Hevs as [->|(engine & async_gen & e & Hloop)]; [constructor|].
      eapply consume_middle, Hloop. }
    assert (Hongoing : Forall (fun m => ongoing m = true)
                         (map Sent (Start (uuid4 env) :: evs))).
    { constructor; [reflexivity|]. apply Forall_map.
      eapply Forall_impl; [exact Hmid|]. intros ev [H1 _]. simpl. rewrite H1. reflexivity. }
    assert (Hid : forall msgs : list AnalysisComponent.Data,
      Forall (fun m => match m with Sent (Start _) => False | _ => True end) msgs ->
      AnalysisComponent.analysisId
        (receive st0 (Sent (Start (uuid4 env)) :: map Sent evs ++ msgs))
      = Some (uuid4 env)).
    { intros msgs Hmsgs. rewrite receive_cons, receive_keeps_analysisId; [reflexivity|].
      apply Forall_app. split; [|exact Hmsgs]. apply Forall_map.
      eapply Forall_impl; [exact Hmid|]. intros [] [_ H2]; simpl in *; auto. discriminate. }
    assert (Hlastmid : forall ev, last (Start (uuid4 env) :: evs) = Some ev ->
              is_terminal ev = false).
    { intros ev Hlast.
      assert (Hin : ev ∈ Start (uuid4 env) :: evs).
      { destruct (exists_last (l := Start (uuid4 env) :: evs)) as (l' & ev' & E);
          [discriminate|]. rewrite E in Hlast |- *. rewrite last_snoc in Hlast.
        injection Hlast as ->. apply elem_of_app. right. left. }
      apply elem_of_cons in Hin as [->|Hin]; [reflexivity|].
      rewrite Forall_forall in Hmid. apply (Hmid ev Hin). }
    destruct Htail as [->|Htail].
    - rewrite app_nil_r in Hshape. rewrite Hshape.
      destruct (receive_ongoing _ st0 eq_refl Hongoing) as (H1 & H2 & H3).
      destruct (last (Start (uuid4 env) :: evs)) as [ev|] eqn:Hlast.
      2:{ destruct (exists_last (l := Start (uuid4 env) :: evs)) as (l' & ev' & E);
            [discriminate|]. rewrite E, last_snoc in Hlast. discriminate. }
      simpl from_option. rewrite (Hlastmid ev eq_refl).
      assert (Hclose : AnalysisComponent.closing_text ev = "")
        by (pose proof (Hlastmid ev eq_refl); destruct ev; try discriminate; reflexivity).
      rewrite Hclose. split.
      + specialize (Hid [] (Forall_nil_2 _)). rewrite app_nil_r in Hid. exact Hid.
      + rewrite H1, H2, H3, texts_Sent, append_empty_r. auto.
    - assert (Hclosing : exists closing, tail = [closing] /\ is_terminal closing = true).
      { destruct Htail as [->|[->|[msg ->]]]; eauto. }
      destruct Hclosing as (closing & -> & Hterm). rewrite Hshape.
      rewrite app_comm_cons, last_snoc. simpl from_option. rewrite Hterm.
      pose proof (component_stops_here st0 (map Sent (Start (uuid4 env) :: evs))
                    [] closing eq_refl Hongoing Hterm) as (H1 & H2 & H3 & H4).
      rewrite map_app. change (map Sent [closing]) with [Sent closing].
      split; [|split; [|split]].
      + apply (Hid [Sent closing]). constructor; [|constructor].
        destruct closing; try discriminate; exact I.
      + rewrite H3, texts_Sent.
        assert (Hcontents : contents ((Start (uuid4 env) :: evs) ++ [closing])
                            = contents (Start (uuid4 env) :: evs)).
        { unfold contents. rewrite omap_app.
          assert (Hnone : omap (fun ev => match ev with Content c => Some c | _ => None end)
                            [closing] = [])
            by (destruct closing; try discriminate; reflexivity).
          rewrite Hnone. apply app_nil_r. }
        rewrite Hcontents. reflexivity.
      + exact H1.
      + exact H2. }
  destruct Hmain as (Hid & Hres & Han & Hsrc).
  split; [exact Hid|]. split; [exact Hres|]. split; [exact Han|]. split; [exact Hsrc|].
  split.
  - intros engine Hengine Hret. rewrite Han.
    destruct (generate_returned_with_engine _ _ _ _ _ _ Hengine Hret) as (ev & Hlast & Hterm).
    fold events in Hlast. rewrite Hlast. simpl. rewrite Hterm. reflexivity.
  - intros Hnone [resp Hmock].
    assert (Hev : events = [Start (uuid4 env)])
      by (unfold events; rewrite (generate_without_engine _ _ _ _ _ _ Hnone Hmock);
          reflexivity).
    rewrite Han, Hres, Hev. split; reflexivity.
Qed.

(** After a cancel request that the server accepted, the component has
    closed its own source: whatever the server sends from then on, the
    [cancelled] event included, is not handled, so the flag and the result
    stay as they were when the request was made. *)
Theorem component_cancel_stops_listening
    (fetch : string -> AnalysisComponent.Fetch) (st : State) (id : string)
    (messages : list AnalysisComponent.Data) :
  AnalysisComponent.analysisId st = Some id ->
  id <> "" ->
  fetch ("/api/ai/cancel/" ++ id)%string = AnalysisComponent.Responded true ->
  AnalysisComponent.eventSource st = Some true ->
  let after := fst (AnalysisComponent.cancelAnalysis fetch st) in
  snd (AnalysisComponent.cancelAnalysis fetch st)
    = Some ("/api/ai/cancel/" ++ id)%string /\
  AnalysisComponent.eventSource after = Some false /\
  receive after messages = after /\
  AnalysisComponent.isAnalyzing (receive after messages)
    = AnalysisComponent.isAnalyzing st /\
  AnalysisComponent.result (receive after messages) = AnalysisComponent.result st.
Proof.
  intros Hid Hne Hfetch Hopen. unfold AnalysisComponent.cancelAnalysis.
  rewrite Hid. apply String.eqb_neq in Hne. rewrite Hne, Hfetch, Hopen. simpl.
  rewrite receive_closed by (simpl; discriminate). auto.
Qed.

Lemma component_cancel_stops_listening_witness :
  let st := receive (AnalysisComponent.startAnalysis AnalysisComponent.initial)
              [Sent (Start "id-1"); Sent (Content "Main thread ")] in
  let fetch := fun _ : string => AnalysisComponent.Responded true in
  let messages := [Sent (Content "is blocked"); Sent Cancelled] in
  let after := fst (AnalysisComponent.cancelAnalysis fetch st) in
  snd (AnalysisComponent.cancelAnalysis fetch st)
    = Some ("/api/ai/cancel/" ++ "id-1")%string /\
  AnalysisComponent.eventSource after = Some false /\
  receive after messages = after /\
  AnalysisComponent.isAnalyzing (receive after messages)
    = AnalysisComponent.isAnalyzing st /\
  AnalysisComponent.result (receive after messages) = AnalysisComponent.result st.
Proof.
  apply (component_cancel_stops_listening
           (fun _ : string => AnalysisComponent.Responded true)
           (receive (AnalysisComponent.startAnalysis AnalysisComponent.initial)
              [Sent (Start "id-1"); Sent (Content "Main thread ")])
           "id-1" [Sent (Content "is blocked"); Sent Cancelled]).
  - reflexivity.
  - discriminate.
  - reflexivity.
  - reflexivity.
Defined.

End ComponentFacts.

(** ** The API client *)

Section ApiClientFacts.

Import ApiClient.

(** An error whose message mentions 401, and no timeout, signs the client
    out: both tokens are removed from the storage, nothing else in it is
    touched, and the headers of the next request carry the content type
    only. Any other error leaves the storage, and so the headers, as they
    were. *)
Theorem handleError_401_signs_out
    (message : string) (localStorage : gmap string string) :
  let storage' := snd (handleError message localStorage) in
  (includes message "timeout" = false -> includes message "401" = true ->
   fst (handleError message localStorage) = "認證失敗，請重新登入" /\
   storage' !! "authToken" = None /\
   storage' !! "sessionToken" = None /\
   (forall key, key <> "authToken" -> key <> "sessionToken" ->
      storage' !! key = localStorage !! key) /\
   getHeaders storage' = {[ "Content-Type" := "application/json" ]}) /\
  (includes message "timeout" = true \/ includes message "401" = false ->
   storage' = localStorage /\
   getHeaders storage' = getHeaders localStorage).
Proof.
  unfold handleError. simpl. split.
  - intros -> ->. simpl. split; [reflexivity|].
    assert (H1 : delete "sessionToken" (delete "authToken" localStorage)
                   !! "authToken" = None).
    { rewrite lookup_delete_ne by discriminate. apply lookup_delete_eq. }
    assert (H2 : delete "sessionToken" (delete "authToken" localStorage)
                   !! "sessionToken" = None) by apply lookup_delete_eq.
    split; [exact H1|]. split; [exact H2|]. split.
    + intros key Ha Hs. rewrite !lookup_delete_ne by congruence. reflexivity.
    + unfold getHeaders. rewrite H1, H2. reflexivity.
  - intros [->|Hno]; [auto|].
    destruct (includes message "timeout"); [auto|]. rewrite Hno.
    destruct (includes message "429"); auto.
Qed.

Lemma handleError_401_signs_out_witness :
  let localStorage : gmap string string :=
    {[ "authToken" := "secret"; "sessionToken" := "s-1"; "appSettings" := "{}" ]} in
  let storage' := snd (handleError "HTTP 401" localStorage) in
  (includes "HTTP 401" "timeout" = false -> includes "HTTP 401" "401" = true ->
   fst (handleError "HTTP 401" localStorage) = "認證失敗，請重新登入" /\
   storage' !! "authToken" = None /\
   storage' !! "sessionToken" = None /\
   (forall key, key <> "authToken" -> key <> "sessionToken" ->
      storage' !! key = localStorage !! key) /\
   getHeaders storage' = {[ "Content-Type" := "application/json" ]}) /\
  (includes "HTTP 401" "timeout" = true \/ includes "HTTP 401" "401" = false ->
   storage' = localStorage /\
   getHeaders storage' = getHeaders localStorage).
Proof.
  exact (handleError_401_signs_out "HTTP 401"
           {[ "authToken" := "secret"; "sessionToken" := "s-1"; "appSettings" := "{}" ]}).
Defined.

Lemma toString16_hex (v : Z) : 0 <= v < 16 -> hex_digit (toString16 v) = true.
Proof.
  intros Hv.
  assert (H : v = 0 \/ v = 1 \/ v = 2 \/ v = 3 \/ v = 4 \/ v = 5 \/ v = 6 \/ v = 7 \/
              v = 8 \/ v = 9 \/ v = 10 \/ v = 11 \/ v = 12 \/ v = 13 \/ v = 14 \/ v = 15)
    by lia.
  repeat (destruct H as [->|H]; [reflexivity|]). subst. reflexivity.
Qed.

Lemma variant_digit (r : Z) :
  0 <= r < 16 ->
  bool_decide (toString16 (Z.lor (Z.land r 3) 8) ∈ list_ascii_of_string "89ab") = true.
Proof.
  intros Hr.
  assert (H : r = 0 \/ r = 1 \/ r = 2 \/ r = 3 \/ r = 4 \/ r = 5 \/ r = 6 \/ r = 7 \/
              r = 8 \/ r = 9 \/ r = 10 \/ r = 11 \/ r = 12 \/ r = 13 \/ r = 14 \/ r = 15)
    by lia.
  repeat (destruct H as [->|H]; [reflexivity|]). subst. reflexivity.
Qed.

Lemma replace_xy_fits (random16 : nat -> Z) template :
  (forall k, 0 <= random16 k < 16) ->
  forall k, fits template (replace_xy template random16 k) = true /\
            String.length (replace_xy template random16 k) = String.length template.
Proof.
  intros Hrand. induction template as [|t template IH]; intros k; [auto|].
  cbn [replace_xy].
  destruct (Ascii.eqb t "x") eqn:Hx; [|destruct (Ascii.eqb t "y") eqn:Hy];
    cbn [fits String.length]; rewrite ?Hx, ?Hy.
  - destruct (IH (S k)) as [H1 H2]. rewrite toString16_hex, H1, H2; auto.
  - destruct (IH (S k)) as [H1 H2]. rewrite variant_digit, H1, H2; auto.
  - destruct (IH k) as [H1 H2]. rewrite Ascii.eqb_refl, H1, H2. auto.
Qed.

(** Whatever the random draws, [generateAnalysisId] returns a string laid
    out as a version 4 UUID: 36 characters, hyphens after the groups of 8,
    4, 4 and 4, the digit 4 opening the third group, one of 8, 9, a, b
    opening the fourth, and lower-case hexadecimal digits everywhere
    else. *)
Theorem generateAnalysisId_is_a_uuid4 (random16 : nat -> Z) :
  (forall k, 0 <= random16 k < 16) ->
  fits "xxxxxxxx-xxxx-4xxx-yxxx-xxxxxxxxxxxx" (generateAnalysisId random16) = true /\
  String.length (generateAnalysisId random16) = 36%nat /\
  String.get 8 (generateAnalysisId random16) = Some "-"%char /\
  String.get 13 (generateAnalysisId random16) = Some "-"%char /\
  String.get 14 (generateAnalysisId random16) = Some "4"%char /\
  String.get 18 (generateAnalysisId random16) = Some "-"%char /\
  String.get 23 (generateAnalysisId random16) = Some "-"%char.
Proof.
  intros Hrand. unfold generateAnalysisId.
  destruct (replace_xy_fits random16 "xxxxxxxx-xxxx-4xxx-yxxx-xxxxxxxxxxxx" Hrand 0%nat)
    as [Hfits Hlen].
  split; [exact Hfits|]. split; [exact Hlen|]. repeat split; reflexivity.
Qed.

Lemma generateAnalysisId_is_a_uuid4_witness :
  fits "xxxxxxxx-xxxx-4xxx-yxxx-xxxxxxxxxxxx"
    (generateAnalysisId (fun k => Z.of_nat k mod 16)) = true /\
  String.length (generateAnalysisId (fun k => Z.of_nat k mod 16)) = 36%nat /\
  String.get 8 (generateAnalysisId (fun k => Z.of_nat k mod 16)) = Some "-"%char /\
  String.get 13 (generateAnalysisId (fun k => Z.of_nat k mod 16)) = Some "-"%char /\
  String.get 14 (generateAnalysisId (fun k => Z.of_nat k mod 16)) = Some "4"%char /\
  String.get 18 (generateAnalysisId (fun k => Z.of_nat k mod 16)) = Some "-"%char /\
  String.get 23 (generateAnalysisId (fun k => Z.of_nat k mod 16)) = Some "-"%char.
Proof.
  apply (generateAnalysisId_is_a_uuid4 (fun k => Z.of_nat k mod 16)).
  intros k. apply Z.mod_pos_bound. lia.
Defined.

End ApiClientFacts.

(** ** Validating an uploaded file *)

Section FileHandlerFacts.

Import FileHandler.

Lemma length_append (s1 s2 : string) :
  String.length (s1 ++ s2)%string = (String.length s1 + String.length s2)%nat.
Proof.
  induction s1 as [|a s1 IH]; [reflexivity|].
  change (S (String.length (s1 ++ s2)%string)
          = S (String.length s1 + String.length s2)). f_equal. exact IH.
Qed.

Lemma substring_all (s : string) : String.substring 0 (String.length s) s = s.
Proof. induction s as [|a s IH]; [reflexivity|]. simpl. rewrite IH. reflexivity. Qed.

Lemma substring_after (stem ext : string) :
  String.substring (String.length stem) (String.length ext) (stem ++ ext)%string = ext.
Proof.
  induction stem as [|a stem IH]; [apply substring_all|].
  change (String.substring (String.length stem) (String.length ext) (stem ++ ext)%string
          = ext). exact IH.
Qed.

(** What [substring] returns is the end of the string. *)
Lemma substring_is_suffix (s : string) (start : Z) :
  exists stem, s = (stem ++ substring start s)%string.
Proof.
  unfold substring. generalize (Z.to_nat start) as n. clear start.
  induction s as [|a s IH]; intros n.
  - exists "". destruct n; reflexivity.
  - destruct n as [|n].
    + exists "". rewrite Nat.sub_0_r. rewrite substring_all. reflexivity.
    + destruct (IH n) as [stem Hstem]. exists (String a stem).
      change (String a s = String a (stem ++ String.substring n (String.length s - n) s)%string).
      f_equal. exact Hstem.
Qed.

Lemma lastIndexOf_range c s :
  lastIndexOf c s = -1 \/ 0 <= lastIndexOf c s < Z.of_nat (String.length s).
Proof.
  induction s as [|a s IH]; [left; reflexivity|].
  cbn [lastIndexOf String.length].
  destruct (Z.leb_spec 0 (lastIndexOf c s)); [right; lia|].
  destruct (Ascii.eqb a c); [right; lia|left; reflexivity].
Qed.

Lemma lastIndexOf_after (stem rest : string) :
  lastIndexOf "." rest = -1 ->
  lastIndexOf "." (stem ++ String "." rest)%string = Z.of_nat (String.length stem).
Proof.
  intros Hrest. induction stem as [|a stem IH].
  - change (lastIndexOf "." (String "." rest) = 0).
    cbn [lastIndexOf]. rewrite Hrest. reflexivity.
  - change (lastIndexOf "." (String a (stem ++ String "." rest)%string)
            = Z.of_nat (S (String.length stem))).
    cbn [lastIndexOf]. rewrite IH.
    destruct (Z.leb_spec 0 (Z.of_nat (String.length stem))); lia.
Qed.

Lemma lower_char_dot c : Endpoint.lower_char c = "."%char -> c = "."%char.
Proof.
  destruct c as [[] [] [] [] [] [] [] []]; vm_compute; intros H;
    first [reflexivity | discriminate].
Qed.

Lemma lower_dot_is_not_letter c d :
  Endpoint.lower_char c = d -> d <> "."%char -> Ascii.eqb c "." = false.
Proof.
  intros H Hd. destruct (Ascii.eqb_spec c "."); [|reflexivity].
  subst c. vm_compute in H. congruence.
Qed.

(** A suffix that lower-cases to an allowed extension is the extension the
    function cuts off. *)
Lemma extension_of (stem ext : string) :
  Endpoint.lower ext ∈ allowedTypes ->
  substring (lastIndexOf "." (stem ++ ext)%string) (stem ++ ext)%string = ext.
Proof.
  intros Hin.
  assert (Hshape : exists c1 c2 c3,
            ext = String "." (String c1 (String c2 (String c3 ""))) /\
            lastIndexOf "." (String c1 (String c2 (String c3 ""))) = -1).
  { unfold allowedTypes in Hin.
    apply elem_of_cons in Hin as [Hin|Hin];
      [|apply elem_of_cons in Hin as [Hin|Hin]; [|apply elem_of_nil in Hin; contradiction]];
      destruct ext as [|c0 [|c1 [|c2 [|c3 [|c4 ext]]]]]; try discriminate;
      cbn [Endpoint.lower] in Hin; injection Hin as H0 H1 H2 H3;
      apply lower_char_dot in H0; subst c0; exists c1, c2, c3;
      (split; [reflexivity|]); cbn [lastIndexOf];
      rewrite (lower_dot_is_not_letter _ _ H1), (lower_dot_is_not_letter _ _ H2),
              (lower_dot_is_not_letter _ _ H3) by discriminate; reflexivity. }
  destruct Hshape as (c1 & c2 & c3 & -> & Hnone).
  rewrite lastIndexOf_after by exact Hnone.
  unfold substring. rewrite Nat2Z.id, length_append.
  replace (String.length stem + String.length (String "." (String c1 (String c2 (String c3 ""))))
           - String.length stem)%nat
    with (String.length (String "." (String c1 (String c2 (String c3 ""))))) by lia.
  apply substring_after.
Qed.

(** [validateFile] accepts exactly the files whose name ends in [.txt] or
    [.log], in any mix of letter cases, and whose size is at most 20 MiB
    (20971520 bytes). The type is checked first: a name with another ending
    gets the message about the type whatever the size; a name that ends
    well with a size above the limit gets the message about the size. *)
Theorem validateFile_accepts_txt_and_log_up_to_20MiB (file : File) :
  let named_well :=
    exists stem ext, name file = (stem ++ ext)%string /\
                     (Endpoint.lower ext = ".txt" \/ Endpoint.lower ext = ".log") in
  (named_well -> size file <= 20971520 ->
   validateFile file = {| valid := true; message := None |}) /\
  (named_well -> 20971520 < size file ->
   validateFile file
   = {| valid := false; message := Some "檔案大小不能超過 20MB" |}) /\
  (~ named_well ->
   validateFile file
   = {| valid := false; message := Some "請上傳 .txt 或 .log 檔案" |}) /\
  (valid (validateFile file) = true <-> named_well /\ size file <= 20971520).
Proof.
  simpl.
  set (named_well := exists stem ext, name file = (stem ++ ext)%string /\
         (Endpoint.lower ext = ".txt" \/ Endpoint.lower ext = ".log")).
  set (extension := Endpoint.lower (substring (lastIndexOf "." (name file)) (name file))).
  assert (Hiff : extension ∈ allowedTypes <-> named_well).
  { split.
    - intros Hin. destruct (substring_is_suffix (name file) (lastIndexOf "." (name file)))
        as [stem Hstem].
      exists stem, (substring (lastIndexOf "." (name file)) (name file)).
      split; [exact Hstem|]. fold extension. unfold allowedTypes in Hin.
      apply elem_of_cons in Hin as [Hin|Hin]; [auto|].
      apply elem_of_cons in Hin as [Hin|Hin]; [auto|].
      apply elem_of_nil in Hin. contradiction.
    - intros (stem & ext & Hname & Hext). unfold extension. rewrite Hname.
      assert (Hin : Endpoint.lower ext ∈ allowedTypes)
        by (unfold allowedTypes; destruct Hext as [->| ->];
            [left|right; left]).
      rewrite (extension_of stem ext Hin). exact Hin. }
  assert (Hmax : maxSize = 20971520) by reflexivity.
  unfold validateFile. fold extension. rewrite Hmax.
  destruct (bool_decide_reflect (extension ∈ allowedTypes)) as [Hin|Hnin]; simpl.
  - apply Hiff in Hin. destruct (Z.ltb_spec 20971520 (size file)); simpl.
    + split; [intros _ ?; lia|]. split; [reflexivity|].
      split; [intros Hn; contradiction|].
      split; [discriminate|intros [_ ?]; lia].
    + split; [reflexivity|]. split; [intros _ ?; lia|].
      split; [intros Hn; contradiction|].
      split; [intros _; auto|reflexivity].
  - assert (Hnot : ~ named_well) by (intros H; apply Hnin, Hiff, H).
    split; [intros H; contradiction|]. split; [intros H; contradiction|].
    split; [reflexivity|].
    split; [discriminate|intros [? _]; contradiction].
Qed.

Lemma validateFile_accepts_txt_and_log_up_to_20MiB_witness :
  let file := {| name := "traces.ANR.Log"; size := 1048576 |} in
  let named_well :=
    exists stem ext, name file = (stem ++ ext)%string /\
                     (Endpoint.lower ext = ".txt" \/ Endpoint.lower ext = ".log") in
  (named_well -> size file <= 20971520 ->
   validateFile file = {| valid := true; message := None |}) /\
  (named_well -> 20971520 < size file ->
   validateFile file
   = {| valid := false; message := Some "檔案大小不能超過 20MB" |}) /\
  (~ named_well ->
   validateFile file
   = {| valid := false; message := Some "請上傳 .txt 或 .log 檔案" |}) /\
  (valid (validateFile file) = true <-> named_well /\ size file <= 20971520).
Proof.
  exact (validateFile_accepts_txt_and_log_up_to_20MiB
           {| name := "traces.ANR.Log"; size := 1048576 |}).
Defined.

End FileHandlerFacts.

(** ** Escaping HTML *)

Section UtilsFacts.

Import Utils.

Example escapeHtml_tag :
  escapeHtml "<a href='x'>R&D</a>"
  = "&lt;a href=&#039;x&#039;&gt;R&amp;D&lt;/a&gt;".
Proof. reflexivity. Qed.

Lemma chars_append (s1 s2 : string) :
  list_ascii_of_string (s1 ++ s2)%string
  = list_ascii_of_string s1 ++ list_ascii_of_string s2.
Proof.
  induction s1 as [|a s1 IH]; [reflexivity|].
  change (a :: list_ascii_of_string (s1 ++ s2)%string
          = a :: (list_ascii_of_string s1 ++ list_ascii_of_string s2)).
  f_equal. exact IH.
Qed.

(** The characters that open or close markup and attribute values. *)
Local Abbreviation markup c :=
  (c = "<"%char \/ c = ">"%char \/ c = "034"%char \/ c = "'"%char).

Lemma escape_char_safe m :
  Forall (fun c => ~ markup c) (list_ascii_of_string (escape_char m)).
Proof.
  unfold escape_char.
  destruct (Ascii.eqb_spec m "&"); [repeat constructor; intros [|[|[|]]]; discriminate|].
  destruct (Ascii.eqb_spec m "<"); [repeat constructor; intros [|[|[|]]]; discriminate|].
  destruct (Ascii.eqb_spec m ">"); [repeat constructor; intros [|[|[|]]]; discriminate|].
  destruct (Ascii.eqb_spec m "034"); [repeat constructor; intros [|[|[|]]]; discriminate|].
  destruct (Ascii.eqb_spec m "'"); [repeat constructor; intros [|[|[|]]]; discriminate|].
  repeat constructor. intros [|[|[|]]]; contradiction.
Qed.

(** What [escapeHtml] returns holds none of the characters [<], [>], the
    double quote and the single quote, whatever the text; a text that
    holds none of them and no [&] is returned as it is; and escaping a text
    made of two parts is escaping the parts. *)
Theorem escapeHtml_leaves_no_markup (text : string) :
  Forall (fun c => ~ markup c) (list_ascii_of_string (escapeHtml text)) /\
  (Forall (fun c => ~ markup c /\ c <> "&"%char) (list_ascii_of_string text) ->
   escapeHtml text = text) /\
  (forall text', escapeHtml (text ++ text')%string
                 = (escapeHtml text ++ escapeHtml text')%string).
Proof.
  split; [|split].
  - induction text as [|m text IH]; [constructor|].
    cbn [escapeHtml]. rewrite chars_append. apply Forall_app.
    split; [apply escape_char_safe|exact IH].
  - induction text as [|m text IH]; intros Hall; [reflexivity|].
    cbn [list_ascii_of_string] in Hall. inversion Hall as [|? ? [Hm Hamp] Hrest]; subst.
    cbn [escapeHtml]. rewrite (IH Hrest). unfold escape_char.
    destruct (Ascii.eqb_spec m "&"); [contradiction|].
    destruct (Ascii.eqb_spec m "<"); [exfalso; apply Hm; auto|].
    destruct (Ascii.eqb_spec m ">"); [exfalso; apply Hm; auto|].
    destruct (Ascii.eqb_spec m "034"); [exfalso; apply Hm; auto|].
    destruct (Ascii.eqb_spec m "'"); [exfalso; apply Hm; auto|].
    reflexivity.
  - intros text'. induction text as [|m text IH]; [reflexivity|].
    change (escapeHtml (String m text ++ text')%string)
      with (escape_char m ++ escapeHtml (text ++ text'))%string.
    rewrite IH. cbn [escapeHtml]. symmetry. apply append_assoc.
Qed.

Lemma escapeHtml_leaves_no_markup_witness :
  Forall (fun c => ~ markup c)
    (list_ascii_of_string (escapeHtml "Cmd line: com.example")) /\
  escapeHtml "Cmd line: com.example" = "Cmd line: com.example" /\
  (forall text', escapeHtml ("Cmd line: com.example" ++ text')%string
                 = (escapeHtml "Cmd line: com.example" ++ escapeHtml text')%string).
Proof.
  destruct (escapeHtml_leaves_no_markup "Cmd line: com.example")
    as (Hsafe & Hsame & Happ).
  split; [exact Hsafe|]. split; [|exact Happ].
  apply Hsame. cbn [list_ascii_of_string].
  repeat (constructor;
          [split; [intros [E|[E|[E|E]]]; discriminate E | discriminate]|]).
  constructor.
Defined.

Lemma escape_char_cases m :
  (m = "&"%char /\ escape_char m = "&amp;") \/
  (m = "<"%char /\ escape_char m = "&lt;") \/
  (m = ">"%char /\ escape_char m = "&gt;") \/
  (m = "034"%char /\ escape_char m = "&quot;") \/
  (m = "'"%char /\ escape_char m = "&#039;") \/
  (m <> "&"%char /\ escape_char m = String m "").
Proof.
  unfold escape_char.
  destruct (Ascii.eqb_spec m "&"); [auto|].
  destruct (Ascii.eqb_spec m "<"); [auto|].
  destruct (Ascii.eqb_spec m ">"); [auto 6|].
  destruct (Ascii.eqb_spec m "034"); [auto 6|].
  destruct (Ascii.eqb_spec m "'"); [auto 8|].
  auto 8.
Qed.

(** Escaping loses nothing: two texts with the same escaped form are the
    same text. *)
Theorem escapeHtml_is_injective (text1 text2 : string) :
  escapeHtml text1 = escapeHtml text2 -> text1 = text2.
Proof.
  revert text2. induction text1 as [|m1 text1 IH]; intros [|m2 text2] H.
  - reflexivity.
  - exfalso. cbn [escapeHtml] in H.
    destruct (escape_char_cases m2) as [[_ E]|[[_ E]|[[_ E]|[[_ E]|[[_ E]|[_ E]]]]]];
      rewrite E in H; discriminate.
  - exfalso. cbn [escapeHtml] in H.
    destruct (escape_char_cases m1) as [[_ E]|[[_ E]|[[_ E]|[[_ E]|[[_ E]|[_ E]]]]]];
      rewrite E in H; discriminate.
  - cbn [escapeHtml] in H.
    assert (Hboth : m1 = m2 /\ escapeHtml text1 = escapeHtml text2).
    { destruct (escape_char_cases m1)
        as [[H1 E1]|[[H1 E1]|[[H1 E1]|[[H1 E1]|[[H1 E1]|[H1 E1]]]]]];
      destruct (escape_char_cases m2)
        as [[H2 E2]|[[H2 E2]|[[H2 E2]|[[H2 E2]|[[H2 E2]|[H2 E2]]]]]];
      rewrite E1, E2 in H; lazy beta iota delta [String.append] in H;
      try discriminate;
      first [ injection H as H; split; congruence
            | injection H as Hm H; split; congruence
            | injection H as Hm H; congruence ]. }
    destruct Hboth as [-> Hrest]. f_equal. apply IH, Hrest.
Qed.

Lemma escapeHtml_is_injective_witness :
  escapeHtml "R&D" = escapeHtml "R&D" /\ "R&D" = "R&D".
Proof.
  split; [reflexivity|].
  apply (escapeHtml_is_injective "R&D" "R&D"). reflexivity.
Defined.

End UtilsFacts.
